(** * news_cli: argument validation, the parser contract and the main routine

    A shallow embedding of [news_cli.py].  The two validators
    ([verify_str_length], [verify_int_range]) and the parser built by
    [create_parser] are pure; [main] is modelled as a function from the
    process inputs (argument vector, environment, the reply of the news
    service) to the trace of effects it performs and the way it ends.

    Python strings are modelled by [string]: a character is a code point in
    the range U+0000..U+00FF.  Python integers are [Z].  The builtins and
    the [argparse] module behave as in CPython 3.11. *)

From Stdlib Require Import ZArith String Ascii List Bool Lia DecimalString.
From Stdlib Require DecimalPos DecimalFacts.
From stdpp Require Import base option list strings gmap.

Local Open Scope string_scope.
Local Open Scope Z_scope.
#[local] Set Warnings "-register-all".

(** ** Python values and exceptions *)

(** The values that flow through the parser: [None], integers, strings and
    lists. *)
Inductive pyval :=
| VNone
| VInt (n : Z)
| VStr (s : string)
| VList (items : list pyval).

(** [ValueError] as raised by the builtin [int]. *)
Inductive ValueError :=
| InvalidLiteral (text : string)
| ExceedsDigitLimit (digits : Z).

(** The text of an [ArgumentTypeError] raised by the validators.  Each
    constructor is one f-string of the source; its arguments are the values
    substituted into the holes of that f-string, in order. *)
Inductive type_error_text :=
(* f"Argument length can't be lower than {lower-1} chars but got
   \n\t{len(raw_text)} chars for {raw_text=!r}" *)
| LengthLower (lower_minus_1 : Z) (len_raw_text : Z) (raw_text : pyval)
(* f"Argument length can't be higher than {upper+1} chars but got
   \n\t{len(raw_text)} chars for {raw_text=!r}" *)
| LengthHigher (upper_plus_1 : Z) (len_raw_text : Z) (raw_text : pyval)
(* f"Got the following error while converting from str to int:\n\t{e!r}" *)
| ConversionError (e : ValueError)
(* f"value must not be less than {lower-1} but you provided
   {raw_argument_value!r}" *)
| ValueLess (lower_minus_1 : Z) (raw_argument_value : string)
(* f"value must not be greater than to {upper+1} but you provided
   {raw_argument_value!r}" *)
| ValueGreater (upper_plus_1 : Z) (raw_argument_value : string).

Inductive exception :=
| ArgumentTypeError (text : type_error_text)
| TypeError
| AttributeError (name : string)
| KeyError (key : string)
| ValueErrorExn (e : ValueError).

(** Computations that either return or raise. *)
Inductive result (A : Type) :=
| Ok (a : A)
| Raise (e : exception).
Arguments Ok {A} a.
Arguments Raise {A} e.

Definition bind {A B} (m : result A) (k : A -> result B) : result B :=
  match m with
  | Ok a => k a
  | Raise e => Raise e
  end.

Notation "'let*' x ':=' m 'in' k" := (bind m (fun x => k))
  (at level 10, x name, m at level 100, k at level 200).

(** [len(v)] *)
Definition py_len (v : pyval) : result Z :=
  match v with
  | VStr s => Ok (Z.of_nat (String.length s))
  | VList items => Ok (Z.of_nat (List.length items))
  | VNone | VInt _ => Raise TypeError
  end.

(** The items produced by [for x in v]: the elements of a list, the
    one-character strings of a string. *)
Definition py_iter (v : pyval) : result (list pyval) :=
  match v with
  | VList items => Ok items
  | VStr s => Ok (map (fun c => VStr (String c EmptyString)) (list_ascii_of_string s))
  | VNone | VInt _ => Raise TypeError
  end.

(** ** [verify_str_length] *)

(** The [for raw_text in argument_value_list] loop of [inner]. *)
Fixpoint check_lengths (lower upper : Z) (items : list pyval) : result unit :=
  match items with
  | [] => Ok tt
  | raw_text :: rest =>
      let* n := py_len raw_text in
      if n <=? lower then
        Raise (ArgumentTypeError (LengthLower (lower - 1) n raw_text))
      else if n >=? upper then
        Raise (ArgumentTypeError (LengthHigher (upper + 1) n raw_text))
      else check_lengths lower upper rest
  end.

(** [verify_str_length(lower, upper)] is the closure [inner]; applied to
    [argument_value_list] it returns that same object or raises. *)
Definition verify_str_length (lower upper : Z) (argument_value_list : pyval)
  : result pyval :=
  let* items := py_iter argument_value_list in
  let* _ := check_lengths lower upper items in
  Ok argument_value_list.

(** The defaults of the two keyword parameters. *)
Definition str_lower_default : Z := 0.
Definition str_upper_default : Z := 255.

(** ** The builtin [int] on strings (base 10) *)

(** Characters skipped around the literal: the ASCII white space of C, and
    the two white-space code points of the Latin-1 supplement. *)
Definition is_int_space (c : ascii) : bool :=
  let n := N_of_ascii c in
  (((9 <=? n) && (n <=? 13)) || (n =? 32) || (n =? 133) || (n =? 160))%N.

Definition digit_value (c : ascii) : option Z :=
  let n := N_of_ascii c in
  if ((48 <=? n) && (n <=? 57))%N then Some (Z.of_N n - 48) else None.

Fixpoint drop_spaces (cs : list ascii) : list ascii :=
  match cs with
  | c :: rest => if is_int_space c then drop_spaces rest else cs
  | [] => []
  end.

Definition strip_spaces (cs : list ascii) : list ascii :=
  rev (drop_spaces (rev (drop_spaces cs))).

(** Digits, single underscores allowed between two digits.  Returns the
    value and the number of digits read. *)
Fixpoint scan_digits (after_digit : bool) (acc : Z) (count : Z)
    (cs : list ascii) : option (Z * Z) :=
  match cs with
  | [] => if after_digit then Some (acc, count) else None
  | c :: rest =>
      match digit_value c with
      | Some d => scan_digits true (10 * acc + d) (count + 1) rest
      | None =>
          if (c =? "_")%char && after_digit
          then scan_digits false acc count rest
          else None
      end
  end.

(** The characters a decimal literal is made of. *)
Definition is_literal_char (c : ascii) : bool :=
  match digit_value c with
  | Some _ => true
  | None => (c =? "_")%char
  end.

(** The run of digits and underscores at the head of [cs], and what follows
    it. *)
Fixpoint split_literal (cs : list ascii) : list ascii * list ascii :=
  match cs with
  | c :: rest =>
      if is_literal_char c
      then let '(literal, following) := split_literal rest in (c :: literal, following)
      else ([], cs)
  | [] => ([], [])
  end.

(** The limit on the number of digits of a decimal literal: the
    interpreter's default, [sys.int_info.default_max_str_digits], which the
    program does not change. *)
Definition int_max_str_digits : Z := 4300.

(** [int(text)]: white space is skipped, then a sign; the run of digits and
    underscores that follows is read, and its number of digits is tested
    against the limit before anything that follows the run is looked at;
    only white space may follow. *)
Definition py_int (text : string) : result Z :=
  let body := strip_spaces (list_ascii_of_string text) in
  let '(negative, digits) :=
    match body with
    | "+"%char :: rest => (false, rest)
    | "-"%char :: rest => (true, rest)
    | _ => (false, body)
    end in
  let '(literal, following) := split_literal digits in
  match scan_digits false 0 0 literal with
  | None => Raise (ValueErrorExn (InvalidLiteral text))
  | Some (v, count) =>
      if count >? int_max_str_digits
      then Raise (ValueErrorExn (ExceedsDigitLimit count))
      else match following with
           | [] => Ok (if negative : bool then - v else v)
           | _ :: _ => Raise (ValueErrorExn (InvalidLiteral text))
           end
  end.

(** ** [verify_int_range] *)

(** [verify_int_range(lower, upper)] is the closure [inner]. *)
Definition verify_int_range (lower upper : Z) (raw_argument_value : string)
  : result Z :=
  let* count :=
    match py_int raw_argument_value with
    | Raise (ValueErrorExn e) =>
        Raise (ArgumentTypeError (ConversionError e))
    | r => r
    end in
  if count <=? lower then
    Raise (ArgumentTypeError (ValueLess (lower - 1) raw_argument_value))
  else if count >=? upper then
    Raise (ArgumentTypeError (ValueGreater (upper + 1) raw_argument_value))
  else Ok count.

Definition int_lower_default : Z := 0.
Definition int_upper_default : Z := 10.

(** ** The argument parser ([argparse])

    The part of [ArgumentParser] that [create_parser] and [main] use:
    optional arguments with the actions [store], [append], [version] and
    [help], a [type] conversion, defaults and [required].  The parser has no
    positional argument, no sub-parser and no mutually exclusive group. *)

(** What the parser writes before it exits. *)
Inductive argument_error_text :=
| ExpectedOneArgument                          (* 'expected one argument' *)
| IgnoredExplicitArgument (explicit_arg : string)
| TypeErrorText (text : type_error_text)       (* str(ArgumentTypeError) *)
| InvalidValue (value : string).               (* 'invalid %(type)s value' *)

Inductive parser_message :=
| AmbiguousOption (option : string) (matches : list string)
| ArgumentErrorMessage (argument_name : list string) (text : argument_error_text)
| RequiredArguments (names : list (list string))
| UnrecognizedArguments (argv : list string)
| VersionText (text : string)
| HelpText.

(** The exits and the internal error of the parser, next to the exceptions
    of the validators. *)
Inductive signal :=
| Exn (e : exception)
| ArgumentError (argument_name : list string) (text : argument_error_text)
| SystemExit (status : Z) (message : option parser_message).

Inductive outcome (A : Type) :=
| Done (a : A)
| Stop (s : signal).
Arguments Done {A} a.
Arguments Stop {A} s.

Definition obind {A B} (m : outcome A) (k : A -> outcome B) : outcome B :=
  match m with
  | Done a => k a
  | Stop s => Stop s
  end.

Notation "'do*' x '<-' m ';' k" := (obind m (fun x => k))
  (at level 10, x name, m at level 100, k at level 200).

Inductive action_kind :=
| store
| append
| version (text : string)
| help_action.

Record Action := {
  option_strings : list string;
  dest : string;
  action : action_kind;
  type : option (string -> result pyval);
  default_value : option pyval;       (* [None] is SUPPRESS *)
  required : bool;
  help : string
}.

Record ArgumentParser := {
  prog : string;
  description : string;
  actions : list Action               (* [_actions], in order of addition *)
}.

(** [_get_action_name]: the option strings, joined by '/' when printed. *)
Definition action_name (a : Action) : list string := option_strings a.

(** The number of argument strings an action takes: [nargs] is [None] (one
    argument) for [store] and [append], 0 for [version] and [help]. *)
Definition nargs (a : Action) : nat :=
  match action a with
  | store | append => 1
  | version _ | help_action => 0
  end.

(** [_option_string_actions], in order of registration. *)
Definition option_string_actions (p : ArgumentParser) : list (string * Action) :=
  flat_map (fun a => map (fun s => (s, a)) (option_strings a)) (actions p).

Fixpoint assoc {A} (k : string) (l : list (string * A)) : option A :=
  match l with
  | [] => None
  | (k', v) :: rest => if String.eqb k k' then Some v else assoc k rest
  end.

(** [ArgumentParser(prog, description)]: a parser with the help option. *)
Definition new_parser (prog description : string) : ArgumentParser :=
  {| prog := prog;
     description := description;
     actions :=
       [ {| option_strings := ["-h"; "--help"];
            dest := "help";
            action := help_action;
            type := None;
            default_value := None;
            required := false;
            help := "show this help message and exit" |} ] |}.

(** The attribute name of an optional: its first long option string (the
    first option string if there is none), without the leading dashes and
    with every other '-' replaced by '_'. *)
Fixpoint lstrip_dashes (s : string) : string :=
  match s with
  | String "-" rest => lstrip_dashes rest
  | _ => s
  end.

Fixpoint dashes_to_underscores (s : string) : string :=
  match s with
  | EmptyString => EmptyString
  | String c rest =>
      String (if Ascii.eqb c "-" then "_"%char else c) (dashes_to_underscores rest)
  end.

Definition is_long_option (s : string) : bool :=
  match s with
  | String _ (String "-" _) => true
  | _ => false
  end.

Definition derive_dest (option_strings : list string) : string :=
  let dest_option_string :=
    match List.filter is_long_option option_strings, option_strings with
    | long :: _, _ => long
    | [], first :: _ => first
    | [], [] => EmptyString
    end in
  dashes_to_underscores (lstrip_dashes dest_option_string).

(** [parser.add_argument] with its option strings and the keyword arguments
    [action], [type], [default], [required] and [help].  The default of a
    [version] or [help] action is SUPPRESS. *)
Definition add_argument (p : ArgumentParser) (option_strings : list string)
    (action : action_kind) (type : option (string -> result pyval))
    (default : pyval) (required : bool) (help : string) : ArgumentParser :=
  let suppressed :=
    match action with
    | version _ | help_action => true
    | store | append => false
    end in
  {| prog := prog p;
     description := description p;
     actions :=
       actions p ++
       [ {| option_strings := option_strings;
            dest := derive_dest option_strings;
            action := action;
            type := type;
            default_value := if suppressed then None else Some default;
            required := required;
            help := help |} ] |}.

(** *** The namespace *)

(** Attributes in the order in which they were first set. *)
Definition Namespace := list (string * pyval).

Fixpoint setattr (ns : Namespace) (name : string) (v : pyval) : Namespace :=
  match ns with
  | [] => [(name, v)]
  | (k, w) :: rest =>
      if String.eqb k name then (k, v) :: rest else (k, w) :: setattr rest name v
  end.

Definition getattr (ns : Namespace) (name : string) : option pyval :=
  assoc name ns.

(** *** Strings *)

Definition contains (c : ascii) (s : string) : bool :=
  existsb (Ascii.eqb c) (list_ascii_of_string s).

(** [s.split(c, 1)] when [c] occurs in [s]. *)
Fixpoint split_once (c : ascii) (s : string) : option (string * string) :=
  match s with
  | EmptyString => None
  | String a rest =>
      if Ascii.eqb a c then Some (EmptyString, rest)
      else match split_once c rest with
           | Some (l, r) => Some (String a l, r)
           | None => None
           end
  end.

Definition is_digit (c : ascii) : bool :=
  match digit_value c with Some _ => true | None => false end.

Definition nonempty_digits (cs : list ascii) : bool :=
  match cs with [] => false | _ => forallb is_digit cs end.

Fixpoint drop_digits (cs : list ascii) : list ascii :=
  match cs with
  | c :: rest => if is_digit c then drop_digits rest else cs
  | [] => []
  end.

(** One alternative of the pattern, anchored at both ends. *)
Definition negative_number_exact (cs : list ascii) : bool :=
  match cs with
  | "-"%char :: rest =>
      nonempty_digits rest
      || match drop_digits rest with
         | "."%char :: frac => nonempty_digits frac
         | _ => false
         end
  | _ => false
  end.

(** [_negative_number_matcher.match]: the pattern ['^-\d+$|^-\d*\.\d+$'];
    its [$] also matches before a final newline. *)
Definition negative_number_matcher (s : string) : bool :=
  let cs := list_ascii_of_string s in
  negative_number_exact cs
  || match rev cs with
     | "010"%char :: before => negative_number_exact (rev before)
     | _ => false
     end.

Definition has_negative_number_optionals (p : ArgumentParser) : bool :=
  existsb (fun '(s, _) => negative_number_matcher s) (option_string_actions p).

(** *** Recognising option strings *)

(** An option tuple: the action (if any), the option string and the
    explicit argument (the text after '=' or glued to a short option). *)
Definition option_tuple : Type := option Action * string * option string.

(** [self.error(message)]: usage and message on the error stream, status 2. *)
Definition parser_error {A} (m : parser_message) : outcome A :=
  Stop (SystemExit 2 (Some m)).

(** [_get_option_tuples].  It is only called on strings of at least two
    characters that start with a dash. *)
Definition get_option_tuples (p : ArgumentParser) (option_string : string)
  : list option_tuple :=
  match option_string with
  | String "-" (String "-" _) =>
      (* two prefix characters: split at the '=' only; abbreviations allowed *)
      let '(option_prefix, explicit_arg) :=
        match split_once "=" option_string with
        | Some (l, r) => (l, Some r)
        | None => (option_string, None)
        end in
      flat_map
        (fun '(s, a) =>
           if String.prefix option_prefix s then [(Some a, s, explicit_arg)] else [])
        (option_string_actions p)
  | String "-" (String c rest) =>
      (* a single-character option may be glued to its argument *)
      let option_prefix := option_string in
      let short_option_prefix := String "-" (String c EmptyString) in
      let short_explicit_arg := rest in
      flat_map
        (fun '(s, a) =>
           if String.eqb s short_option_prefix then [(Some a, s, Some short_explicit_arg)]
           else if String.prefix option_prefix s then [(Some a, s, None)]
           else [])
        (option_string_actions p)
  | _ => []
  end.

(** [_parse_optional]: [None] when the string is an argument ('A'), a tuple
    when it is an option ('O'). *)
Definition parse_optional (p : ArgumentParser) (arg_string : string)
  : outcome (option option_tuple) :=
  match arg_string with
  | EmptyString => Done None
  | String c _ =>
      if negb (Ascii.eqb c "-") then Done None
      else
        match assoc arg_string (option_string_actions p) with
        | Some a => Done (Some (Some a, arg_string, None))
        | None =>
            if (String.length arg_string =? 1)%nat then Done None
            else
              let before_equals :=
                match split_once "=" arg_string with
                | Some (option_string, explicit_arg) =>
                    match assoc option_string (option_string_actions p) with
                    | Some a => Some (Some a, option_string, Some explicit_arg)
                    | None => None
                    end
                | None => None
                end in
              match before_equals with
              | Some t => Done (Some t)
              | None =>
                  match get_option_tuples p arg_string with
                  | (_ :: _ :: _) as option_tuples =>
                      parser_error
                        (AmbiguousOption arg_string
                           (map (fun '(_, s, _) => s) option_tuples))
                  | [t] => Done (Some t)
                  | [] =>
                      if negative_number_matcher arg_string
                         && negb (has_negative_number_optionals p)
                      then Done None
                      else if contains " " arg_string then Done None
                      else Done (Some (None, arg_string, None))
                  end
              end
        end
  end.

(** One letter of [arg_strings_pattern]. *)
Inductive arg_pattern :=
| pattern_A
| pattern_dashes                       (* '-': the string '--' *)
| pattern_O (t : option_tuple).

(** The first loop of [_parse_known_args]: every string after '--' is an
    argument. *)
Fixpoint classify (p : ArgumentParser) (after_dashes : bool)
    (arg_strings : list string) : outcome (list (string * arg_pattern)) :=
  match arg_strings with
  | [] => Done []
  | arg_string :: rest =>
      if after_dashes then
        do* r <- classify p true rest;
        Done ((arg_string, pattern_A) :: r)
      else if String.eqb arg_string "--" then
        do* r <- classify p true rest;
        Done ((arg_string, pattern_dashes) :: r)
      else
        do* t <- parse_optional p arg_string;
        do* r <- classify p false rest;
        Done ((arg_string,
               match t with Some t => pattern_O t | None => pattern_A end) :: r)
  end.

(** *** Taking actions *)

Record parse_state := {
  namespace : Namespace;
  seen_actions : list (list string);   (* actions, named by their option strings *)
  extras : list string
}.

(** [_get_value]: the [type] function applied to one argument string.  An
    [ArgumentTypeError] becomes an [ArgumentError] carrying its text, a
    [TypeError] or [ValueError] one that names the value. *)
Definition get_value (a : Action) (arg_string : string) : outcome pyval :=
  match type a with
  | None => Done (VStr arg_string)
  | Some type_func =>
      match type_func arg_string with
      | Ok v => Done v
      | Raise (ArgumentTypeError text) =>
          Stop (ArgumentError (action_name a) (TypeErrorText text))
      | Raise TypeError | Raise (ValueErrorExn _) =>
          Stop (ArgumentError (action_name a) (InvalidValue arg_string))
      | Raise e => Stop (Exn e)
      end
  end.

(** [arg_strings.remove('--')]: the first occurrence only. *)
Fixpoint remove_dashes (arg_strings : list string) : list string :=
  match arg_strings with
  | [] => []
  | s :: rest => if String.eqb s "--" then rest else s :: remove_dashes rest
  end.

Fixpoint get_value_list (a : Action) (arg_strings : list string)
  : outcome (list pyval) :=
  match arg_strings with
  | [] => Done []
  | s :: rest =>
      do* v <- get_value a s;
      do* vs <- get_value_list a rest;
      Done (v :: vs)
  end.

(** [_get_values] for [nargs] [None] or 0: a single string gives a single
    value when [nargs] is [None], anything else gives a list. *)
Definition get_values (a : Action) (arg_strings : list string) : outcome pyval :=
  match remove_dashes arg_strings, nargs a with
  | [arg_string], 1%nat => get_value a arg_string
  | arg_strings, _ =>
      do* vs <- get_value_list a arg_strings;
      Done (VList vs)
  end.

(** [%(prog)s] replaced by the program name. *)
Fixpoint expand_prog (prog : string) (skip : nat) (text : string) : string :=
  match text with
  | EmptyString => EmptyString
  | String c rest =>
      match skip with
      | S k => expand_prog prog k rest
      | O =>
          if String.prefix "%(prog)s" text
          then (prog ++ expand_prog prog 7 rest)%string
          else String c (expand_prog prog 0 rest)
      end
  end.

(** Calling the action object: [store] sets the attribute, [append] adds to
    a copy of the list found there, [version] and [help] print and exit with
    status 0. *)
Definition call_action (p : ArgumentParser) (a : Action) (ns : Namespace)
    (values : pyval) : outcome Namespace :=
  match action a with
  | store => Done (setattr ns (dest a) values)
  | append =>
      match getattr ns (dest a) with
      | None | Some VNone => Done (setattr ns (dest a) (VList [values]))
      | Some (VList items) =>
          Done (setattr ns (dest a) (VList (items ++ [values])))
      | Some _ => Stop (Exn (AttributeError "append"))
      end
  | version text =>
      Stop (SystemExit 0 (Some (VersionText (expand_prog (prog p) 0 text))))
  | help_action => Stop (SystemExit 0 (Some HelpText))
  end.

(** [take_action] *)
Definition take_action (p : ArgumentParser) (st : parse_state) (a : Action)
    (argument_strings : list string) : outcome parse_state :=
  let seen := action_name a :: seen_actions st in
  do* argument_values <- get_values a argument_strings;
  do* ns <- call_action p a (namespace st) argument_values;
  Done {| namespace := ns; seen_actions := seen; extras := extras st |}.

Fixpoint take_actions (p : ArgumentParser) (st : parse_state)
    (action_tuples : list (Action * list string)) : outcome parse_state :=
  match action_tuples with
  | [] => Done st
  | (a, args) :: rest =>
      do* st' <- take_action p st a args;
      take_actions p st' rest
  end.

(** *** [consume_optional] *)

(** The branch without explicit argument: the action's arguments are matched
    against the strings that follow.  Returns the action tuple and the number
    of following strings used. *)
Definition match_following (a : Action) (following : list (string * arg_pattern))
  : outcome (Action * list string * nat) :=
  match nargs a, following with
  | O, _ => Done (a, [], O)
  | _, (s, pattern_A) :: _ => Done (a, [s], 1%nat)
  | _, _ => Stop (ArgumentError (action_name a) ExpectedOneArgument)
  end.

(** The [while True] loop of [consume_optional] when there is an explicit
    argument: an action that takes no argument and has a single-dash option
    string passes the rest of the string on to the next short option. *)
Fixpoint consume_explicit (p : ArgumentParser) (a : Action)
    (option_string : string) (explicit_arg : string)
    (following : list (string * arg_pattern))
    (action_tuples : list (Action * list string))
  : outcome (list (Action * list string) * nat) :=
  let single_dash :=
    match option_string with
    | String _ (String c _) => negb (Ascii.eqb c "-")
    | _ => false
    end in
  match nargs a, explicit_arg with
  | O, String c new_explicit_arg =>
      if single_dash then
        let action_tuples := (action_tuples ++ [(a, [])])%list in
        let option_string :=
          match option_string with
          | String char _ => String char (String c EmptyString)
          | EmptyString => String c EmptyString
          end in
        match assoc option_string (option_string_actions p) with
        | Some a' =>
            match new_explicit_arg with
            | EmptyString =>
                do* r <- match_following a' following;
                let '(a', args, n) := r in
                Done ((action_tuples ++ [(a', args)])%list, n)
            | _ =>
                consume_explicit p a' option_string new_explicit_arg
                  following action_tuples
            end
        | None =>
            Stop (ArgumentError (action_name a)
                    (IgnoredExplicitArgument explicit_arg))
        end
      else
        Stop (ArgumentError (action_name a)
                (IgnoredExplicitArgument explicit_arg))
  | O, EmptyString =>
      Stop (ArgumentError (action_name a) (IgnoredExplicitArgument explicit_arg))
  | _, _ => Done ((action_tuples ++ [(a, [explicit_arg])])%list, O)
  end.

Definition consume_optional (p : ArgumentParser) (st : parse_state)
    (a : Action) (option_string : string) (explicit_arg : option string)
    (following : list (string * arg_pattern)) : outcome (parse_state * nat) :=
  do* r <-
    match explicit_arg with
    | Some e => consume_explicit p a option_string e following []
    | None =>
        do* r <- match_following a following;
        let '(a, args, n) := r in
        Done ([(a, args)], n)
    end;
  let '(action_tuples, used) := r in
  do* st' <- take_actions p st action_tuples;
  Done (st', used).

Definition add_extra (st : parse_state) (s : string) : parse_state :=
  {| namespace := namespace st;
     seen_actions := seen_actions st;
     extras := extras st ++ [s] |}.

(** The main loop of [_parse_known_args].  The parser has no positional
    argument, so every string that no option consumes is an extra. *)
Fixpoint consume (p : ArgumentParser) (st : parse_state)
    (args : list (string * arg_pattern)) : outcome parse_state :=
  match args with
  | [] => Done st
  | (s, pattern_O (Some a, option_string, explicit_arg)) :: rest =>
      do* r <- consume_optional p st a option_string explicit_arg rest;
      let '(st', used) := r in
      match used, rest with
      | S _, _ :: rest' => consume p st' rest'
      | _, _ => consume p st' rest
      end
  | (s, _) :: rest => consume p (add_extra st s) rest
  end.

(** *** [parse_args] *)

Definition initial_namespace (p : ArgumentParser) : Namespace :=
  fold_left
    (fun ns a =>
       match default_value a with
       | Some v =>
           match getattr ns (dest a) with
           | None => setattr ns (dest a) v
           | Some _ => ns
           end
       | None => ns
       end)
    (actions p) [].

Fixpoint names_eqb (l1 l2 : list string) : bool :=
  match l1, l2 with
  | [], [] => true
  | a :: r1, b :: r2 => String.eqb a b && names_eqb r1 r2
  | _, _ => false
  end.

Definition seen (st : parse_state) (a : Action) : bool :=
  existsb (names_eqb (action_name a)) (seen_actions st).

(** The loop over [_actions] after the argument strings are consumed: the
    required actions that were not seen are collected, and a default that is
    a string and still in place is converted by the [type] function. *)
Fixpoint check_required (st : parse_state) (acts : list Action)
    (ns : Namespace) (required_actions : list (list string))
  : outcome (Namespace * list (list string)) :=
  match acts with
  | [] => Done (ns, required_actions)
  | a :: rest =>
      if seen st a then check_required st rest ns required_actions
      else if required a then
        check_required st rest ns (required_actions ++ [action_name a])
      else
        match default_value a with
        | Some (VStr s) =>
            match getattr ns (dest a) with
            | Some (VStr s') =>
                if String.eqb s s' then
                  do* v <- get_value a s;
                  check_required st rest (setattr ns (dest a) v) required_actions
                else check_required st rest ns required_actions
            | _ => check_required st rest ns required_actions
            end
        | _ => check_required st rest ns required_actions
        end
  end.

Definition parse_known_args_inner (p : ArgumentParser) (arg_strings : list string)
  : outcome (Namespace * list string) :=
  do* patterns <- classify p false arg_strings;
  do* st <- consume p
              {| namespace := initial_namespace p;
                 seen_actions := [];
                 extras := [] |}
              patterns;
  do* r <- check_required st (actions p) (namespace st) [];
  let '(ns, required_actions) := r in
  match required_actions with
  | [] => Done (ns, extras st)
  | _ => parser_error (RequiredArguments required_actions)
  end.

(** [parse_known_args]: an [ArgumentError] ends in [self.error]. *)
Definition parse_known_args (p : ArgumentParser) (args : list string)
  : outcome (Namespace * list string) :=
  match parse_known_args_inner p args with
  | Stop (ArgumentError name text) => parser_error (ArgumentErrorMessage name text)
  | r => r
  end.

Definition parse_args (p : ArgumentParser) (args : list string)
  : outcome Namespace :=
  do* r <- parse_known_args p args;
  let '(ns, argv) := r in
  match argv with
  | [] => Done ns
  | _ => parser_error (UnrecognizedArguments argv)
  end.

(** ** [create_parser] *)

Definition create_parser : ArgumentParser :=
  let description := "
A simple command line program to get current news for any topic of interest in a JSON format" in
  let parser := new_parser "News Crawler" description in
  let parser :=
    add_argument parser ["--topic"; "-t"]
      append
      (Some (fun arg_string =>
               verify_str_length str_lower_default str_upper_default (VStr arg_string)))
      VNone
      true
      "the topic(s) to look for" in
  let parser :=
    add_argument parser ["--version"; "-v"]
      (version "%(prog)s 1.0") None VNone false
      "show program's version number and exit" in
  let parser :=
    add_argument parser ["--article_count"; "-c"]
      store
      (Some (fun arg_string =>
               let* n := verify_int_range int_lower_default int_upper_default arg_string in
               Ok (VInt n)))
      (VInt 10)
      false
      "the number of articles to return. Defaults to 10." in
  let parser :=
    add_argument parser ["--timeout"]
      store
      (Some (fun arg_string =>
               let* n := verify_int_range int_lower_default 60 arg_string in
               Ok (VInt n)))
      (VInt 10)
      false
      "delay in seconds to wait before termination if the connection can't be established. Defaults to 10 s" in
  parser.

(** ** [main] *)

Definition BASE_URL : string := "https://gnews.io/api/v4/search".

(** A decoded JSON document. *)
Inductive json_value :=
| JNull
| JBool (b : bool)
| JNumber (literal : string)
| JString (s : string)
| JArray (items : list json_value)
| JObject (members : list (string * json_value)).

(** The keyword arguments of one [requests.get] call; [timeout] is [None]
    when the call passes no [timeout], in which case the library waits
    without limit. *)
Record request := {
  url : string;
  params : list (string * string);
  timeout : option Z
}.

(** What the network gives back: no response at all (connection error or
    time-out), or a response with its status code and, when the body is a
    JSON document, that document. *)
Inductive reply :=
| NoResponse
| Response (status_code : Z) (json : option json_value).

(** The inputs of one run of the process. *)
Record world := {
  argv : list string;                   (* [sys.argv[1:]] *)
  environ : gmap string string;
  network : request -> reply
}.

Inductive stdout_text :=
| Line (text : string)                  (* [print(text)] *)
| PrettyPrinted (data : json_value)     (* [pprint(data)] *)
| ParserOutput (m : parser_message).    (* version or help text *)

Definition double_quote : string := String "034"%char EmptyString.

Definition missing_key_text : string :=
  ("
              No API key " ++ double_quote ++ "NEWS_KEY" ++ double_quote ++ " set in the environment.
              Go to # https://gnews.io/ to get your key.
              Exiting...")%string.

Inductive stderr_text :=
| Printed (text : string)
| ParserUsageError (m : parser_message).

Inductive event :=
| WriteStdout (t : stdout_text)
| WriteStderr (t : stderr_text)
| LookupEnviron (key : string)          (* a read of [os.environ] *)
| HttpGet (r : request).

Inductive uncaught :=
| PythonException (e : exception)
| RequestException
| HTTPError (status_code : Z)
| JSONDecodeError.

(** How the process ends. *)
Inductive ending :=
| Exit (status : Z)                     (* [SystemExit] *)
| Traceback (e : uncaught).             (* an exception nobody catches *)

(** A program reads the world, performs events and either yields a value or
    ends the process. *)
Definition io (A : Type) : Type := world -> list event * (A + ending).

Definition ret {A} (a : A) : io A := fun _ => ([], inl a).

Definition io_bind {A B} (m : io A) (k : A -> io B) : io B :=
  fun w =>
    match m w with
    | (t, inl a) => let '(t', r) := k a w in ((t ++ t')%list, r)
    | (t, inr e) => (t, inr e)
    end.

Notation "x <- m ;; k" := (io_bind m (fun x => k))
  (at level 100, m at next level, right associativity).
Notation "m ;; k" := (io_bind m (fun _ => k))
  (at level 100, right associativity).

Definition emit (e : event) : io unit := fun _ => ([e], inl tt).
Definition finish {A} (e : ending) : io A := fun _ => ([], inr e).
Definition ask : io world := fun w => ([], inl w).

(** [print(...)], [print(..., file=stderr)], [exit(status)] *)
Definition print (t : stdout_text) : io unit := emit (WriteStdout t).
Definition print_stderr (text : string) : io unit := emit (WriteStderr (Printed text)).
Definition exit {A} (status : Z) : io A := finish (Exit status).

(** [parser.parse_args()] on the arguments of the process: an exit of the
    parser writes its message (the version or help text to standard output,
    an error to the error stream) and ends the process with its status. *)
Definition run_parse_args (p : ArgumentParser) : io Namespace :=
  w <- ask ;;
  match parse_args p (argv w) with
  | Done ns => ret ns
  | Stop (SystemExit status message) =>
      match message with
      | Some ((VersionText _ | HelpText) as m) => emit (WriteStdout (ParserOutput m))
      | Some m => emit (WriteStderr (ParserUsageError m))
      | None => ret tt
      end ;;
      exit status
  | Stop (Exn e) => finish (Traceback (PythonException e))
  | Stop (ArgumentError name text) =>
      (* [parse_known_args] turns every [ArgumentError] into an exit *)
      emit (WriteStderr (ParserUsageError (ArgumentErrorMessage name text))) ;;
      exit 2
  end.

(** [str(n)] for an integer. *)
Definition str_int (n : Z) : string := NilZero.string_of_int (Z.to_int n).

(** [repr] of a string: single quotes, unless the string holds a single
    quote and no double quote; the quote and the backslash are escaped, tab,
    newline and carriage return are written [\t], [\n], [\r], and every
    other character that is not printable is written [\xNN]. *)
Definition hex_digit (n : N) : ascii :=
  ascii_of_N (if (n <? 10)%N then 48 + n else 87 + n).

Definition hex_escape (c : ascii) : string :=
  let n := N_of_ascii c in
  String "\" (String "x" (String (hex_digit (n / 16)) (String (hex_digit (n mod 16)) EmptyString))).

Definition is_printable (c : ascii) : bool :=
  let n := N_of_ascii c in
  (((32 <=? n) && (n <? 127)) || ((161 <=? n) && negb (n =? 173)))%N.

Definition repr_char (quote c : ascii) : string :=
  if Ascii.eqb c quote || Ascii.eqb c "\" then String "\" (String c EmptyString)
  else if Ascii.eqb c "009" then "\t"
  else if Ascii.eqb c "010" then "\n"
  else if Ascii.eqb c "013" then "\r"
  else if is_printable c then String c EmptyString
  else hex_escape c.

Definition repr_str (s : string) : string :=
  let quote :=
    if contains "'" s && negb (contains "034" s) then "034"%char else "'"%char in
  (String quote (String.concat EmptyString (map (repr_char quote) (list_ascii_of_string s)))
   ++ String quote EmptyString)%string.

(** [repr(v)] and [str(v)] *)
Fixpoint py_repr (v : pyval) : string :=
  match v with
  | VNone => "None"
  | VInt n => str_int n
  | VStr s => repr_str s
  | VList items => ("[" ++ String.concat ", " (map py_repr items) ++ "]")%string
  end.

Definition py_str (v : pyval) : string :=
  match v with
  | VStr s => s
  | _ => py_repr v
  end.

(** [repr] of a namespace: its attributes in order, as [name=repr(value)]. *)
Definition namespace_repr (ns : Namespace) : string :=
  ("Namespace("
   ++ String.concat ", " (map (fun '(name, v) => name ++ "=" ++ py_repr v) ns)
   ++ ")")%string.

(** f"args are {args}" *)
Definition args_line (args : Namespace) : string :=
  ("args are " ++ namespace_repr args)%string.

(** [" ".join(list(topic))]: every item has to be a string. *)
Fixpoint join_items (sep : string) (items : list pyval) : result string :=
  match items with
  | [] => Ok EmptyString
  | [VStr s] => Ok s
  | VStr s :: rest =>
      let* r := join_items sep rest in
      Ok (s ++ sep ++ r)%string
  | _ :: _ => Raise TypeError
  end.

Definition lift {A} (r : result A) : io A :=
  match r with
  | Ok a => ret a
  | Raise e => finish (Traceback (PythonException e))
  end.

(** [requests.get(url=.., params=..)]: the call, then the reply of the
    network; without a response the library raises. *)
Definition requests_get (url : string) (params : list (string * string))
  : io (Z * option json_value) :=
  let r := {| url := url; params := params; timeout := None |} in
  emit (HttpGet r) ;;
  w <- ask ;;
  match network w r with
  | NoResponse => finish (Traceback RequestException)
  | Response status_code json => ret (status_code, json)
  end.

(** [response.raise_for_status()] *)
Definition raise_for_status (status_code : Z) : io unit :=
  if (400 <=? status_code) && (status_code <? 600)
  then finish (Traceback (HTTPError status_code))
  else ret tt.

(** ["key" in environ] and [environ["key"]] *)
Definition environ_contains (key : string) : io bool :=
  emit (LookupEnviron key) ;;
  w <- ask ;;
  ret (match environ w !! key with Some _ => true | None => false end).

Definition environ_get (key : string) : io string :=
  emit (LookupEnviron key) ;;
  w <- ask ;;
  match environ w !! key with
  | Some v => ret v
  | None => finish (Traceback (PythonException (KeyError key)))
  end.

(** [args.name]: an attribute of the namespace. *)
Definition attribute (args : Namespace) (name : string) : io pyval :=
  match getattr args name with
  | Some v => ret v
  | None => finish (Traceback (PythonException (AttributeError name)))
  end.

Definition main : io unit :=
  let parser := create_parser in
  args <- run_parse_args parser ;;
  print (Line (args_line args)) ;;
  has_key <- environ_contains "NEWS_KEY" ;;
  (if negb has_key then
     print_stderr missing_key_text ;;
     exit 22
   else ret tt) ;;
  topic <- attribute args "topic" ;;
  topic <- lift (py_iter topic) ;;
  query <- lift (join_items " " topic) ;;
  article_count <- attribute args "article_count" ;;
  apikey <- environ_get "NEWS_KEY" ;;
  let payload :=
    [ ("q", query);
      ("lang", "en");
      ("country", "us");
      ("max", py_str article_count);
      ("apikey", apikey) ] in
  response <- requests_get BASE_URL payload ;;
  let '(status_code, json) := response in
  raise_for_status status_code ;;
  data <- match json with
          | Some data => ret data
          | None => finish (Traceback JSONDecodeError)
          end ;;
  print (PrettyPrinted data).

(** * Properties

    ** Vocabulary of the statements *)

(** A string whose length lies strictly between the two bounds. *)
Definition in_bounds (lower upper : Z) (s : string) : Prop :=
  lower < Z.of_nat (String.length s) < upper.

(** The error that names the offending string [s] and the bound it
    violates: the lower bound when [len(s) <= lower], the upper one
    otherwise. *)
Definition length_error (lower upper : Z) (s : string) : exception :=
  let n := Z.of_nat (String.length s) in
  ArgumentTypeError
    (if n <=? lower then LengthLower (lower - 1) n (VStr s)
     else LengthHigher (upper + 1) n (VStr s)).

(** A validator fails with the error argparse reports as an invalid
    argument. *)
Definition invalid_argument {A} (r : result A) : Prop :=
  exists text, r = Raise (ArgumentTypeError text).

Definition starts_with_dash (s : string) : bool :=
  match s with String "-" _ => true | _ => false end.

(** The parser returns a namespace, or stops with a usage error (status 2). *)
Definition accepted (o : outcome Namespace) : Prop := exists ns, o = Done ns.

Definition usage_error (o : outcome Namespace) : Prop :=
  exists m, o = Stop (SystemExit 2 (Some m)).

(** The namespace of a successful parse. *)
Definition parsed (topic : list pyval) (article_count timeout : Z) : Namespace :=
  [("topic", VList topic);
   ("article_count", VInt article_count);
   ("timeout", VInt timeout)].

(** The three arguments that [create_parser] adds. *)
Definition topic_type (arg_string : string) : result pyval :=
  verify_str_length str_lower_default str_upper_default (VStr arg_string).

Definition int_type (upper : Z) (arg_string : string) : result pyval :=
  let* n := verify_int_range int_lower_default upper arg_string in Ok (VInt n).

Definition topic_action : Action :=
  {| option_strings := ["--topic"; "-t"];
     dest := "topic";
     action := append;
     type := Some topic_type;
     default_value := Some VNone;
     required := true;
     help := "the topic(s) to look for" |}.

Definition article_count_action : Action :=
  {| option_strings := ["--article_count"; "-c"];
     dest := "article_count";
     action := store;
     type := Some (int_type int_upper_default);
     default_value := Some (VInt 10);
     required := false;
     help := "the number of articles to return. Defaults to 10." |}.

Definition timeout_action : Action :=
  {| option_strings := ["--timeout"];
     dest := "timeout";
     action := store;
     type := Some (int_type 60);
     default_value := Some (VInt 10);
     required := false;
     help := "delay in seconds to wait before termination if the connection can't be established. Defaults to 10 s" |}.

(** The value of an option that takes one argument string [v], converted by
    [f]. *)
Definition converted (a : Action) (v : string) (f : string -> result pyval)
  : outcome pyval :=
  match f v with
  | Ok x => Done x
  | Raise (ArgumentTypeError text) =>
      Stop (ArgumentError (action_name a) (TypeErrorText text))
  | Raise TypeError | Raise (ValueErrorExn _) =>
      Stop (ArgumentError (action_name a) (InvalidValue v))
  | Raise e => Stop (Exn e)
  end.

(** The state of the parser after [-t test]. *)
Definition st_test : parse_state :=
  {| namespace := parsed [VStr "test"] 10 10;
     seen_actions := [["--topic"; "-t"]];
     extras := [] |}.

(** The outcome of [-t test <option> <t>] for an integer option, in terms of
    how [t] is recognised and what the range validator says. *)
Definition int_option_result (a : Action) (upper : Z) (t : string)
    (ok : Z -> Namespace) : outcome Namespace :=
  match parse_optional create_parser t with
  | Stop x => Stop x
  | Done (Some _) =>
      Stop (SystemExit 2
              (Some (ArgumentErrorMessage (action_name a) ExpectedOneArgument)))
  | Done None =>
      match verify_int_range int_lower_default upper t with
      | Ok n => Done (ok n)
      | Raise (ArgumentTypeError text) =>
          Stop (SystemExit 2
                  (Some (ArgumentErrorMessage (action_name a) (TypeErrorText text))))
      | Raise TypeError | Raise (ValueErrorExn _) =>
          Stop (SystemExit 2
                  (Some (ArgumentErrorMessage (action_name a) (InvalidValue t))))
      | Raise e => Stop (Exn e)
      end
  end.

(** A topic of 300 characters. *)
Definition long_topic : string := String.concat EmptyString (repeat "x" 300).

(** The text written to standard output, in order. *)
Definition stdout_of (t : list event) : list stdout_text :=
  flat_map (fun e => match e with WriteStdout x => [x] | _ => [] end) t.

(** [main] from the moment the key is known to be set. *)
Definition fetch (args : Namespace) : io unit :=
  topic <- attribute args "topic" ;;
  topic <- lift (py_iter topic) ;;
  query <- lift (join_items " " topic) ;;
  article_count <- attribute args "article_count" ;;
  apikey <- environ_get "NEWS_KEY" ;;
  let payload :=
    [ ("q", query);
      ("lang", "en");
      ("country", "us");
      ("max", py_str article_count);
      ("apikey", apikey) ] in
  response <- requests_get BASE_URL payload ;;
  let '(status_code, json) := response in
  raise_for_status status_code ;;
  data <- match json with
          | Some data => ret data
          | None => finish (Traceback JSONDecodeError)
          end ;;
  print (PrettyPrinted data).

(** [main] from the moment the arguments are parsed. *)
Definition after_parse (args : Namespace) : io unit :=
  print (Line (args_line args)) ;;
  has_key <- environ_contains "NEWS_KEY" ;;
  (if negb has_key then
     print_stderr missing_key_text ;;
     exit 22
   else ret tt) ;;
  fetch args.

(** The traces [fetch] can leave and how each one ends: every request goes
    to [BASE_URL] and carries no time-out. *)
Inductive fetch_shape : list event -> unit + ending -> Prop :=
| fetch_raises e : fetch_shape [] (inr (Traceback e))
| fetch_no_key e : fetch_shape [LookupEnviron "NEWS_KEY"] (inr (Traceback e))
| fetch_fails r e :
    url r = BASE_URL -> timeout r = None ->
    fetch_shape [LookupEnviron "NEWS_KEY"; HttpGet r] (inr (Traceback e))
| fetch_prints r data :
    url r = BASE_URL -> timeout r = None ->
    fetch_shape
      [LookupEnviron "NEWS_KEY"; HttpGet r; WriteStdout (PrettyPrinted data)]
      (inl tt).

(** A run with the key set and a service that answers 200 with a document. *)
Definition sample_reply (r : request) : reply :=
  Response 200 (Some (JObject [("totalArticles", JNumber "0")])).

Definition sample_world (args : list string) (key : option string) : world :=
  {| argv := args;
     environ := match key with
                | Some k => {[ "NEWS_KEY" := k ]}
                | None => ∅
                end;
     network := sample_reply |}.

Ltac unfold_io :=
  unfold requests_get, raise_for_status, attribute, environ_contains, environ_get,
    print, print_stderr, exit, lift, io_bind, emit, finish, ask, ret.

(** ** Vocabulary of the further properties *)

(** A command line written as pairs of an option string and its value. *)
Definition flatten (pairs : list (string * string)) : list string :=
  flat_map (fun '(flag, v) => [flag; v]) pairs.

(** The two spellings of the topic option, of the article count, and the
    time-out option. *)
Definition is_topic_flag (flag : string) : bool :=
  String.eqb flag "-t" || String.eqb flag "--topic".

Definition is_count_flag (flag : string) : bool :=
  String.eqb flag "-c" || String.eqb flag "--article_count".

Definition is_timeout_flag (flag : string) : bool := String.eqb flag "--timeout".

(** A pair the parser accepts: a topic that does not begin with a dash, an
    article count between 1 and 9, a timeout between 1 and 59. *)
Definition well_formed (pair : string * string) : Prop :=
  let '(flag, v) := pair in
  ((flag = "-t" \/ flag = "--topic") /\ starts_with_dash v = false)
  \/ ((flag = "-c" \/ flag = "--article_count")
      /\ exists n, py_int v = Ok n /\ 1 <= n <= 9)
  \/ (flag = "--timeout" /\ exists n, py_int v = Ok n /\ 1 <= n <= 59).

(** The integer a value stands for. *)
Definition int_of (v : string) : Z :=
  match py_int v with Ok n => n | Raise _ => 0 end.

(** What a pair does to the topics, the article count and the timeout
    collected so far. *)
Definition record_pair (acc : list string * Z * Z) (pair : string * string)
  : list string * Z * Z :=
  let '(topics, article_count, timeout) := acc in
  let '(flag, v) := pair in
  if is_topic_flag flag then ((topics ++ [v])%list, article_count, timeout)
  else if is_count_flag flag then (topics, int_of v, timeout)
  else (topics, article_count, int_of v).

(** The action an option string selects. *)
Definition flag_action (flag : string) : Action :=
  if is_topic_flag flag then topic_action
  else if is_count_flag flag then article_count_action
  else timeout_action.

(** The classified form of such a command line: an option string, then a
    plain argument. *)
Definition pair_patterns (pairs : list (string * string))
  : list (string * arg_pattern) :=
  flat_map (fun '(flag, v) =>
              [(flag, pattern_O (Some (flag_action flag), flag, None)); (v, pattern_A)])
    pairs.

(** The [topic] attribute after these topics: [None] until the first one. *)
Definition topic_value (topics : list string) : pyval :=
  match topics with
  | [] => VNone
  | _ => VList (map VStr topics)
  end.

(** The parser state after the topics, the article count and the time-out
    collected so far. *)
Definition state_of (acc : list string * Z * Z) (seen : list (list string))
  : parse_state :=
  let '(topics, article_count, timeout) := acc in
  {| namespace := [("topic", topic_value topics);
                   ("article_count", VInt article_count);
                   ("timeout", VInt timeout)];
     seen_actions := seen;
     extras := [] |}.

(** Whether the topic option is among the actions seen. *)
Definition topic_seen (seen : list (list string)) : bool :=
  existsb (names_eqb ["--topic"; "-t"]) seen.

(** The actions seen after these pairs. *)
Definition seen_after (pairs : list (string * string)) (seen : list (list string))
  : list (list string) :=
  fold_left (fun s '(flag, _) => action_name (flag_action flag) :: s) pairs seen.

(** The outcome of a command line made of well-formed pairs. *)
Definition pairs_outcome (pairs : list (string * string)) : outcome Namespace :=
  let '(topics, article_count, timeout) := fold_left record_pair pairs ([], 10, 10) in
  match topics with
  | [] => Stop (SystemExit 2 (Some (RequiredArguments [["--topic"; "-t"]])))
  | _ => Done (parsed (map VStr topics) article_count timeout)
  end.

(** The values given to the options that [test] selects, in the order of the
    command line. *)
Definition values_of (test : string -> bool) (pairs : list (string * string))
  : list string :=
  map snd (List.filter (fun pair => test (fst pair)) pairs).

Definition topics_of (pairs : list (string * string)) : list string :=
  values_of is_topic_flag pairs.

(** The integer of the last value given to an option, [default] when the
    option is absent. *)
Definition last_int (test : string -> bool) (pairs : list (string * string))
    (default : Z) : Z :=
  List.last (map int_of (values_of test pairs)) default.

(** The option strings that take a value. *)
Definition value_flag (flag : string) : Prop :=
  In flag ["-t"; "--topic"; "-c"; "--article_count"; "--timeout"].

(** A string that cannot be taken for an option. *)
Definition no_dash (s : string) : Prop := starts_with_dash s = false.

(** Plain arguments, classified. *)
Definition plain_patterns (args : list string) : list (string * arg_pattern) :=
  map (fun s => (s, pattern_A)) args.

(** The state after plain arguments that no action takes. *)
Definition with_extras (st : parse_state) (args : list string) : parse_state :=
  {| namespace := namespace st;
     seen_actions := seen_actions st;
     extras := extras st ++ args |}.

(** The version option *)
Definition version_action : Action :=
  {| option_strings := ["--version"; "-v"];
     dest := "version";
     action := version "%(prog)s 1.0";
     type := None;
     default_value := None;
     required := false;
     help := "show program's version number and exit" |}.

(** The help option that [ArgumentParser] adds. *)
Definition help_record : Action :=
  {| option_strings := ["-h"; "--help"];
     dest := "help";
     action := help_action;
     type := None;
     default_value := None;
     required := false;
     help := "show this help message and exit" |}.

(** The exits of the version and help actions: status 0. *)
Definition version_exit : signal :=
  SystemExit 0 (Some (VersionText "News Crawler 1.0")).

Definition help_exit : signal := SystemExit 0 (Some HelpText).

(** The values the parser can store. *)
Definition good_item (v : pyval) : Prop := (exists s, v = VStr s) \/ v = VList [].

(** The [topic] attribute: [None], or a list that is not empty. *)
Definition good_topic (v : pyval) : Prop :=
  v = VNone \/ exists items, v = VList items /\ items <> [] /\ Forall good_item items.

(** The value of an integer option: an integer from 1 to [upper], or the
    empty list that the explicit argument [--] leaves. *)
Definition good_int (upper : Z) (v : pyval) : Prop :=
  v = VList [] \/ exists n, v = VInt n /\ 1 <= n <= upper.

(** The parser states [create_parser] can reach. *)
Definition good_state (st : parse_state) : Prop :=
  exists topic article_count timeout,
    namespace st = [("topic", topic); ("article_count", article_count);
                    ("timeout", timeout)]
    /\ good_topic topic /\ good_int 10 article_count /\ good_int 59 timeout
    /\ (topic_seen (seen_actions st) = true -> topic <> VNone).

(** The namespaces the parser returns. *)
Definition good_namespace (ns : Namespace) : Prop :=
  exists items article_count timeout,
    ns = [("topic", VList items); ("article_count", article_count);
          ("timeout", timeout)]
    /\ items <> [] /\ Forall good_item items
    /\ good_int 10 article_count /\ good_int 59 timeout.

(** How the parser loop may stop: with an [ArgumentError], or with the exit
    of the version or help action. *)
Definition benign (s : signal) : Prop :=
  (exists name text, s = ArgumentError name text)
  \/ s = SystemExit 0 (Some (VersionText "News Crawler 1.0"))
  \/ s = SystemExit 0 (Some HelpText).

(** The messages of a usage error: neither the version nor the help text. *)
Definition usage_message (m : parser_message) : Prop :=
  match m with
  | VersionText _ | HelpText => False
  | _ => True
  end.

(** The exit of a usage error: status 2. *)
Definition usage_exit (s : signal) : Prop :=
  exists m, s = SystemExit 2 (Some m) /\ usage_message m.

(** The ways the parser stops. *)
Definition parser_exit (s : signal) : Prop :=
  usage_exit s \/ s = version_exit \/ s = help_exit.

(** A classified argument whose action, if any, is one of the parser. *)
Definition known_pattern (p : ArgumentParser) (x : string * arg_pattern) : Prop :=
  match snd x with
  | pattern_O (Some a, _, _) => In a (actions p)
  | _ => True
  end.

(** An action with at most one argument string. *)
Definition short_args (t : Action * list string) : Prop :=
  (length (snd t) <= 1)%nat.

(** An action of [create_parser] with at most one argument string. *)
Definition known_tuple (t : Action * list string) : Prop :=
  In (fst t) (actions create_parser) /\ (length (snd t) <= 1)%nat.

(** The outcomes of the parser loop. *)
Definition good_or_benign (r : outcome parse_state) : Prop :=
  match r with
  | Done st => good_state st
  | Stop s => benign s
  end.

(** The request [main] builds from the topics, the article count and the
    key. *)
Definition news_request (topics : list string) (article_count : pyval)
    (apikey : string) : request :=
  {| url := BASE_URL;
     params := [("q", String.concat " " topics);
                ("lang", "en");
                ("country", "us");
                ("max", py_str article_count);
                ("apikey", apikey)];
     timeout := None |}.

(** The events of [main] up to and including its request. *)
Definition request_trace (args : Namespace) (r : request) : list event :=
  [WriteStdout (Line (args_line args));
   LookupEnviron "NEWS_KEY";
   LookupEnviron "NEWS_KEY";
   HttpGet r].

(** The status codes for which [raise_for_status] raises. *)
Definition error_status (status_code : Z) : Prop := 400 <= status_code < 600.

(** What follows the request, by the reply of the network. *)
Definition after_reply (r : reply) : list event * (unit + ending) :=
  match r with
  | NoResponse => ([], inr (Traceback RequestException))
  | Response status_code json =>
      if (400 <=? status_code) && (status_code <? 600)
      then ([], inr (Traceback (HTTPError status_code)))
      else match json with
           | None => ([], inr (Traceback JSONDecodeError))
           | Some data => ([WriteStdout (PrettyPrinted data)], inl tt)
           end
  end.

(** The requests of a trace. *)
Definition is_http_get (e : event) : bool :=
  match e with HttpGet _ => true | _ => false end.

Definition requests_of (t : list event) : list event := List.filter is_http_get t.

(** The characters of a decimal numeral. *)
Definition numeral (d : Decimal.uint) : list ascii :=
  list_ascii_of_string (NilEmpty.string_of_uint d).

(** The number of digits of a numeral. *)
Definition digits_of (d : Decimal.uint) : Z := Z.of_nat (Decimal.nb_digits d).

(** Characters that [int] does not strip. *)
Definition no_space (cs : list ascii) : Prop :=
  Forall (fun c => is_int_space c = false) cs.

(** Characters that do not continue a decimal literal: there is none, or the
    first is neither a digit nor an underscore. *)
Definition ends_literal (following : list ascii) : Prop :=
  match following with
  | [] => True
  | c :: _ => is_literal_char c = false
  end.

(** A numeral of 4301 digits. *)
Definition long_numeral : Decimal.uint := Nat.iter 4301 Decimal.D1 Decimal.Nil.

(** One step of [scan_digits] on the first character of a numeral. *)
Ltac read_digit :=
  cbn [NilEmpty.string_of_uint list_ascii_of_string scan_digits];
  match goal with
  | |- context [digit_value ?c] =>
      let v := eval vm_compute in (digit_value c) in
      change (digit_value c) with v
  end;
  cbv iota beta.

(** A command line with every option, two of them given twice. *)
Definition sample_pairs : list (string * string) :=
  [("--timeout", "20"); ("-t", "a"); ("-c", "3"); ("--topic", "b c");
   ("--article_count", "5")].

(** A world in which no request is answered. *)
Definition silent_world (args : list string) (key : string) : world :=
  {| argv := args; environ := {[ "NEWS_KEY" := key ]}; network := fun _ => NoResponse |}.

(** Shows that concrete pairs are well formed. *)
Ltac accept_pair :=
  first
    [ left; split; [(left + right); reflexivity|reflexivity]
    | right; left; split;
      [(left + right); reflexivity|eexists; split; [vm_compute; reflexivity|lia]]
    | right; right; split; [reflexivity|eexists; split; [vm_compute; reflexivity|lia]] ].

Ltac accept_pairs := repeat (constructor; [accept_pair|]); constructor.

(** ** The string-length validator *)

Section StrLength.
Variables lower upper : Z.

Lemma in_bounds_dec (s : string) :
  {in_bounds lower upper s} + {~ in_bounds lower upper s}.
Proof.
  unfold in_bounds.
  destruct (Z_lt_dec lower (Z.of_nat (String.length s)));
    destruct (Z_lt_dec (Z.of_nat (String.length s)) upper);
    (left; lia) || (right; lia).
Qed.

Lemma check_lengths_in_bounds (l : list string) :
  Forall (in_bounds lower upper) l ->
  check_lengths lower upper (map VStr l) = Ok tt.
Proof.
  induction 1 as [|s l [Hlo Hhi] _ IH]; simpl; [reflexivity|].
  destruct (Z.leb_spec (Z.of_nat (String.length s)) lower); [lia|].
  destruct (Z.geb_spec (Z.of_nat (String.length s)) upper); [lia|].
  exact IH.
Qed.

Lemma check_lengths_app (before after : list pyval) :
  check_lengths lower upper before = Ok tt ->
  check_lengths lower upper (before ++ after) = check_lengths lower upper after.
Proof.
  induction before as [|v before IH]; simpl; [reflexivity|].
  destruct (py_len v) as [n|e]; simpl; [|discriminate].
  destruct (n <=? lower); [discriminate|].
  destruct (n >=? upper); [discriminate|]. exact IH.
Qed.

Lemma check_lengths_offender (s : string) (after : list string) :
  ~ in_bounds lower upper s ->
  check_lengths lower upper (map VStr (s :: after))
  = Raise (length_error lower upper s).
Proof.
  unfold in_bounds, length_error. intros Hs. simpl.
  destruct (Z.leb_spec (Z.of_nat (String.length s)) lower); [reflexivity|].
  destruct (Z.geb_spec (Z.of_nat (String.length s)) upper); [reflexivity|lia].
Qed.

Lemma first_offender (l : list string) :
  ~ Forall (in_bounds lower upper) l ->
  exists before s after,
    l = (before ++ s :: after)%list /\
    Forall (in_bounds lower upper) before /\ ~ in_bounds lower upper s.
Proof.
  induction l as [|s l IH]; intros Hl.
  - destruct Hl. constructor.
  - destruct (in_bounds_dec s) as [Hs|Hs].
    + destruct IH as (before & x & after & -> & Hb & Hx).
      { intros Hall. apply Hl. constructor; assumption. }
      exists (s :: before), x, after.
      repeat split; [constructor; assumption|assumption].
    + exists [], s, l. repeat split; [constructor|assumption].
Qed.

(** Applied to a string instead of a list, the validator iterates over
    its characters, each a string of length one. *)
Lemma check_lengths_characters (cs : list ascii) :
  lower < 1 < upper ->
  check_lengths lower upper (map (fun c => VStr (String c EmptyString)) cs) = Ok tt.
Proof.
  intros [Hlo Hhi]. induction cs as [|c cs IH]; [reflexivity|].
  cbn [map check_lengths py_len bind String.length].
  change (Z.of_nat 1) with 1.
  destruct (Z.leb_spec 1 lower); [lia|].
  destruct (Z.geb_spec 1 upper); [lia|]. exact IH.
Qed.

Lemma verify_str_length_str (s : string) :
  lower < 1 < upper -> verify_str_length lower upper (VStr s) = Ok (VStr s).
Proof.
  intros H. unfold verify_str_length. cbn [py_iter bind].
  rewrite check_lengths_characters by exact H. reflexivity.
Qed.
End StrLength.

(** C1.  For every list of strings and all bounds [lower] and [upper] (the
    defaults are 0 and 255), [verify_str_length] returns its argument
    unchanged when the length of every string is strictly between the
    bounds; otherwise it raises the [ArgumentTypeError] that names the first
    string out of bounds and the bound it violates.  The validator is a pure
    function: it has no other effect. *)
Theorem verify_str_length_list (lower upper : Z) (l : list string) :
  let argument_value_list := VList (map VStr l) in
  (Forall (in_bounds lower upper) l ->
   verify_str_length lower upper argument_value_list = Ok argument_value_list)
  /\
  (~ Forall (in_bounds lower upper) l ->
   exists before s after,
     l = (before ++ s :: after)%list /\
     Forall (in_bounds lower upper) before /\
     ~ in_bounds lower upper s /\
     verify_str_length lower upper argument_value_list
     = Raise (length_error lower upper s)).
Proof.
  cbv zeta. unfold verify_str_length. simpl py_iter. cbn [bind]. split.
  - intros Hall. rewrite check_lengths_in_bounds by assumption. reflexivity.
  - intros Hnot.
    destruct (first_offender _ _ _ Hnot) as (before & s & after & -> & Hb & Hs).
    exists before, s, after. repeat split; try assumption.
    rewrite map_app, check_lengths_app by (apply check_lengths_in_bounds; assumption).
    rewrite check_lengths_offender by assumption. reflexivity.
Qed.

Lemma verify_str_length_list_witness :
  verify_str_length str_lower_default str_upper_default (VList [VStr "news"; VStr "rocq"])
  = Ok (VList [VStr "news"; VStr "rocq"])
  /\
  exists before s after,
    ["news"; ""; "rocq"] = (before ++ s :: after)%list /\
    Forall (in_bounds 0 255) before /\
    ~ in_bounds 0 255 s /\
    verify_str_length 0 255 (VList [VStr "news"; VStr ""; VStr "rocq"])
    = Raise (length_error 0 255 s).
Proof.
  split.
  - apply (proj1 (verify_str_length_list 0 255 ["news"; "rocq"])).
    repeat constructor; unfold in_bounds; simpl; lia.
  - apply (proj2 (verify_str_length_list 0 255 ["news"; ""; "rocq"])).
    intros H. inversion H as [|? ? _ H']. inversion H' as [|? ? Hb _].
    unfold in_bounds in Hb. simpl in Hb. lia.
Defined.

(** ** The integer-range validator *)

Lemma py_int_raises (t : string) (e : exception) :
  py_int t = Raise e -> exists v, e = ValueErrorExn v.
Proof.
  unfold py_int.
  destruct (match strip_spaces (list_ascii_of_string t) with
            | [] => _ | _ => _ end) as [negative digits].
  destruct (split_literal digits) as [literal following].
  destruct (scan_digits false 0 0 literal) as [[v count]|].
  - destruct (count >? int_max_str_digits); [intros [= <-]; eauto|].
    destruct following; [discriminate|intros [= <-]; eauto].
  - intros [= <-]; eauto.
Qed.

Section IntRange.
Variables lower upper : Z.
Variable t : string.

Lemma verify_int_range_ok (n : Z) :
  py_int t = Ok n -> lower < n < upper -> verify_int_range lower upper t = Ok n.
Proof.
  intros Ht Hn. unfold verify_int_range. rewrite Ht. cbn [bind].
  destruct (Z.leb_spec n lower); [lia|].
  destruct (Z.geb_spec n upper); [lia|]. reflexivity.
Qed.

Lemma verify_int_range_low (n : Z) :
  py_int t = Ok n -> n <= lower ->
  verify_int_range lower upper t
  = Raise (ArgumentTypeError (ValueLess (lower - 1) t)).
Proof.
  intros Ht Hn. unfold verify_int_range. rewrite Ht. cbn [bind].
  destruct (Z.leb_spec n lower); [reflexivity|lia].
Qed.

Lemma verify_int_range_high (n : Z) :
  py_int t = Ok n -> lower < n -> upper <= n ->
  verify_int_range lower upper t
  = Raise (ArgumentTypeError (ValueGreater (upper + 1) t)).
Proof.
  intros Ht Hlo Hn. unfold verify_int_range. rewrite Ht. cbn [bind].
  destruct (Z.leb_spec n lower); [lia|].
  destruct (Z.geb_spec n upper); [reflexivity|lia].
Qed.

Lemma verify_int_range_not_int (e : exception) :
  py_int t = Raise e ->
  exists v, e = ValueErrorExn v /\
    verify_int_range lower upper t
    = Raise (ArgumentTypeError (ConversionError v)).
Proof.
  intros Ht. destruct (py_int_raises _ _ Ht) as [v ->].
  exists v. split; [reflexivity|]. unfold verify_int_range. rewrite Ht. reflexivity.
Qed.
End IntRange.

(** C2.  For every text [t] and all bounds [lower] and [upper] (the defaults
    are 0 and 10), [verify_int_range] raises [ArgumentTypeError] exactly
    when [int(t)] fails, or the integer [n] it yields has [n <= lower] or
    [n >= upper]; it returns [n] exactly when [int(t)] yields an [n] with
    [lower < n < upper]. *)
Theorem verify_int_range_spec (lower upper : Z) (t : string) :
  (invalid_argument (verify_int_range lower upper t) <->
   (exists e, py_int t = Raise e) \/
   (exists n, py_int t = Ok n /\ (n <= lower \/ n >= upper)))
  /\
  (forall n, verify_int_range lower upper t = Ok n <->
             py_int t = Ok n /\ lower < n < upper).
Proof.
  unfold invalid_argument. destruct (py_int t) as [n|e] eqn:Ht.
  - destruct (Z_le_gt_dec n lower) as [Hlo|Hlo];
      [|destruct (Z_le_gt_dec upper n) as [Hhi|Hhi]].
    + rewrite (verify_int_range_low lower upper t n Ht Hlo). split; [split|].
      * intros _. right. exists n. split; [reflexivity|lia].
      * intros _. eauto.
      * intros m. split; [discriminate|]. intros [[= ->] ?]. lia.
    + rewrite (verify_int_range_high lower upper t n Ht ltac:(lia) Hhi).
      split; [split|].
      * intros _. right. exists n. split; [reflexivity|lia].
      * intros _. eauto.
      * intros m. split; [discriminate|]. intros [[= ->] ?]. lia.
    + rewrite (verify_int_range_ok lower upper t n Ht ltac:(lia)). split; [split|].
      * intros [? [=]].
      * intros [[? [=]]|(m & [= <-] & ?)]. lia.
      * intros m. split; [intros [= <-]; split; [reflexivity|lia]|].
        intros [[= ->] _]. reflexivity.
  - destruct (verify_int_range_not_int lower upper t e Ht) as (v & -> & ->).
    split; [split|].
    + intros _. left. eauto.
    + intros _. eauto.
    + intros m. split; [discriminate|]. intros [[=] _].
Qed.

(** A literal that starts with a dash denotes no positive integer. *)
Lemma digit_value_nonneg (c : ascii) (d : Z) : digit_value c = Some d -> 0 <= d.
Proof.
  unfold digit_value. destruct (N.leb_spec 48 (N_of_ascii c)); simpl; [|discriminate].
  destruct (_ <=? _)%N; [|discriminate]. intros [= <-]. lia.
Qed.

Lemma scan_digits_nonneg (cs : list ascii) :
  forall after_digit acc count v k,
    0 <= acc -> scan_digits after_digit acc count cs = Some (v, k) -> 0 <= v.
Proof.
  induction cs as [|c cs IH]; intros after_digit acc count v k Hacc; simpl.
  - destruct after_digit; [|discriminate]. intros [= <- _]. exact Hacc.
  - destruct (digit_value c) as [d|] eqn:Hd.
    + apply IH. pose proof (digit_value_nonneg _ _ Hd). lia.
    + destruct (_ && _); [|discriminate]. apply IH. exact Hacc.
Qed.

Lemma drop_spaces_snoc (cs : list ascii) (c : ascii) :
  is_int_space c = false -> drop_spaces (cs ++ [c]) = (drop_spaces cs ++ [c])%list.
Proof.
  intros Hc. induction cs as [|a cs IH]; simpl.
  - rewrite Hc. reflexivity.
  - destruct (is_int_space a); [exact IH|reflexivity].
Qed.

Lemma strip_spaces_dash (cs : list ascii) :
  exists rest, strip_spaces ("-"%char :: cs) = "-"%char :: rest.
Proof.
  unfold strip_spaces. change (drop_spaces ("-"%char :: cs)) with ("-"%char :: cs).
  change (rev ("-"%char :: cs)) with (rev cs ++ ["-"%char])%list.
  rewrite drop_spaces_snoc by reflexivity. rewrite rev_app_distr. simpl. eauto.
Qed.

Lemma py_int_dash_nonpositive (t : string) (n : Z) :
  starts_with_dash t = true -> py_int t = Ok n -> n <= 0.
Proof.
  destruct t as [|c t]; [discriminate|]. unfold starts_with_dash.
  destruct (Ascii.eqb_spec c "-") as [->|Hc].
  - intros _. unfold py_int.
    change (list_ascii_of_string (String "-" t))
      with ("-"%char :: list_ascii_of_string t).
    destruct (strip_spaces_dash (list_ascii_of_string t)) as [rest ->].
    destruct (split_literal rest) as [literal following].
    destruct (scan_digits false 0 0 literal) as [[v k]|] eqn:Hscan; [|discriminate].
    destruct (k >? int_max_str_digits); [discriminate|].
    destruct following; [|discriminate]. intros [= <-].
    pose proof (scan_digits_nonneg _ _ _ _ _ _ (Z.le_refl 0) Hscan). lia.
  - destruct c as [[] [] [] [] [] [] [] []]; try discriminate. contradiction.
Qed.

Lemma py_int_not_dashes (t : string) (n : Z) : py_int t = Ok n -> t <> "--".
Proof. intros H ->. discriminate H. Qed.

(** ** The parser loop *)

Lemma remove_dashes_single (v : string) : v <> "--" -> remove_dashes [v] = [v].
Proof.
  intros H. simpl. rewrite (proj2 (String.eqb_neq v "--") H). reflexivity.
Qed.

Lemma take_action_one (p : ArgumentParser) (st : parse_state) (a : Action)
    (v : string) (f : string -> result pyval) :
  v <> "--" -> nargs a = 1%nat -> type a = Some f ->
  take_action p st a [v] =
  do* x <- converted a v f;
  do* ns <- call_action p a (namespace st) x;
  Done {| namespace := ns;
          seen_actions := action_name a :: seen_actions st;
          extras := extras st |}.
Proof.
  intros Hv Hn Hf. unfold take_action, get_values, get_value, converted.
  rewrite (remove_dashes_single v Hv), Hn, Hf. reflexivity.
Qed.

(** An option followed by an argument string consumes it. *)
Lemma consume_option_value (p : ArgumentParser) (st : parse_state) (a : Action)
    (s option_string v : string) (rest : list (string * arg_pattern)) :
  nargs a = 1%nat ->
  consume p st
    ((s, pattern_O (Some a, option_string, None)) :: (v, pattern_A) :: rest) =
  do* st' <- take_action p st a [v];
  consume p st' rest.
Proof.
  intros Hn. cbn [consume]. unfold consume_optional, match_following. rewrite Hn.
  cbn [obind take_actions]. destruct (take_action p st a [v]); reflexivity.
Qed.

(** An option followed by another option has no argument. *)
Lemma consume_option_no_value (p : ArgumentParser) (st : parse_state) (a : Action)
    (s option_string v : string) (t : option_tuple)
    (rest : list (string * arg_pattern)) :
  nargs a = 1%nat ->
  consume p st
    ((s, pattern_O (Some a, option_string, None)) :: (v, pattern_O t) :: rest) =
  Stop (ArgumentError (action_name a) ExpectedOneArgument).
Proof.
  intros Hn. cbn [consume]. unfold consume_optional, match_following. rewrite Hn.
  reflexivity.
Qed.

Lemma parse_optional_no_dash (p : ArgumentParser) (s : string) :
  starts_with_dash s = false -> parse_optional p s = Done None.
Proof.
  destruct s as [|c s]; [reflexivity|]. unfold starts_with_dash, parse_optional.
  destruct (Ascii.eqb_spec c "-") as [->|Hc]; [discriminate|reflexivity].
Qed.

(** Recognising an option string stops only with a usage error. *)
Lemma parse_optional_stops (p : ArgumentParser) (s : string) (x : signal) :
  parse_optional p s = Stop x -> exists m, x = SystemExit 2 (Some m).
Proof.
  unfold parse_optional, parser_error. intros H.
  repeat case_match; try discriminate. all: try (injection H as <-; eauto).
Qed.

(** [parse_args] lets no [ArgumentError] escape. *)
Lemma parse_args_no_argument_error (p : ArgumentParser) (args : list string)
    (name : list string) (text : argument_error_text) :
  parse_args p args <> Stop (ArgumentError name text).
Proof.
  unfold parse_args, parse_known_args, parser_error.
  destruct (parse_known_args_inner p args) as [[ns argv]|[e|n t|status m]]; cbn [obind].
  - destruct argv; discriminate.
  - discriminate.
  - discriminate.
  - discriminate.
Qed.

Lemma no_dash_not_dashes (s : string) : starts_with_dash s = false -> s <> "--".
Proof. intros H ->. discriminate H. Qed.

Lemma usage_error_not_accepted (o : outcome Namespace) :
  usage_error o -> ~ accepted o.
Proof. intros [m ->] [ns H]. discriminate H. Qed.

(** ** Parsing with [create_parser] *)

Lemma int_type_converted (a : Action) (upper : Z) (t : string) :
  converted a t (int_type upper) =
  match verify_int_range int_lower_default upper t with
  | Ok n => Done (VInt n)
  | Raise (ArgumentTypeError text) =>
      Stop (ArgumentError (action_name a) (TypeErrorText text))
  | Raise TypeError | Raise (ValueErrorExn _) =>
      Stop (ArgumentError (action_name a) (InvalidValue t))
  | Raise e => Stop (Exn e)
  end.
Proof.
  unfold converted, int_type. destruct (verify_int_range _ _ _); reflexivity.
Qed.

(** The pattern of [-t test <option> <t>]. *)
Lemma classify_option_value (flag t : string) (a : Action) :
  parse_optional create_parser flag = Done (Some (Some a, flag, None)) ->
  flag <> "--" -> t <> "--" ->
  classify create_parser false ["-t"; "test"; flag; t] =
  do* c <- parse_optional create_parser t;
  Done [("-t", pattern_O (Some topic_action, "-t", None));
        ("test", pattern_A);
        (flag, pattern_O (Some a, flag, None));
        (t, match c with Some x => pattern_O x | None => pattern_A end)].
Proof.
  intros Hflag Hf Ht. cbn [classify].
  rewrite (proj2 (String.eqb_neq flag "--") Hf), (proj2 (String.eqb_neq t "--") Ht), Hflag.
  change (String.eqb "-t" "--") with false. change (String.eqb "test" "--") with false.
  change (parse_optional create_parser "-t")
    with (Done (A:=option option_tuple) (Some (Some topic_action, "-t", None))).
  change (parse_optional create_parser "test") with (Done (A:=option option_tuple) None).
  cbn [obind]. destruct (parse_optional create_parser t) as [[c|]|x]; reflexivity.
Qed.

Lemma consume_topic_test (rest : list (string * arg_pattern)) :
  consume create_parser
    {| namespace := initial_namespace create_parser; seen_actions := []; extras := [] |}
    (("-t", pattern_O (Some topic_action, "-t", None)) :: ("test", pattern_A) :: rest)
  = consume create_parser st_test rest.
Proof.
  rewrite consume_option_value by reflexivity.
  change (take_action create_parser _ topic_action ["test"]) with (Done st_test).
  reflexivity.
Qed.

(** The shared script of [parse_article_count] and [parse_timeout]. *)
Ltac parse_int_option a upper :=
  unfold parse_args, parse_known_args, parse_known_args_inner, int_option_result;
  match goal with
  | |- context [classify create_parser false [_; _; ?flag; ?t]] =>
      rewrite (classify_option_value flag t a)
        by (reflexivity || discriminate || assumption);
      let Hc := fresh "Hc" in
      destruct (parse_optional create_parser t) as [[c|]|x] eqn:Hc; cbn [obind];
      [ rewrite consume_topic_test, consume_option_no_value by reflexivity;
        reflexivity
      | rewrite consume_topic_test, consume_option_value by reflexivity;
        rewrite (take_action_one _ _ _ _ (int_type upper))
          by (assumption || reflexivity);
        rewrite int_type_converted;
        destruct (verify_int_range int_lower_default upper t)
          as [n|[text| |name|key|e]]; reflexivity
      | let m := fresh "m" in
        destruct (parse_optional_stops _ _ _ Hc) as [m ->]; reflexivity ]
  end.

Lemma parse_article_count (flag t : string) :
  flag = "-c" \/ flag = "--article_count" -> t <> "--" ->
  parse_args create_parser ["-t"; "test"; flag; t] =
  int_option_result article_count_action int_upper_default t
    (fun n => parsed [VStr "test"] n 10).
Proof.
  intros [-> | ->] Ht; parse_int_option article_count_action int_upper_default.
Qed.

Lemma parse_timeout (t : string) :
  t <> "--" ->
  parse_args create_parser ["-t"; "test"; "--timeout"; t] =
  int_option_result timeout_action 60 t (fun n => parsed [VStr "test"] 10 n).
Proof.
  intros Ht. parse_int_option timeout_action 60.
Qed.

(** An integer option accepts exactly the integers strictly between 0 and
    its upper bound. *)
Lemma int_option_result_cases (a : Action) (upper : Z) (t : string) (n : Z)
    (ok : Z -> Namespace) :
  py_int t = Ok n ->
  (0 < n < upper -> int_option_result a upper t ok = Done (ok n)) /\
  (~ 0 < n < upper -> usage_error (int_option_result a upper t ok)).
Proof.
  intros Hn. unfold int_option_result, usage_error, int_lower_default.
  destruct (starts_with_dash t) eqn:Hdash.
  - pose proof (py_int_dash_nonpositive t n Hdash Hn) as Hle. split; [lia|]. intros _.
    destruct (parse_optional create_parser t) as [[c|]|x] eqn:Hc.
    + eauto.
    + rewrite (verify_int_range_low 0 upper t n Hn Hle). eauto.
    + destruct (parse_optional_stops _ _ _ Hc) as [m ->]. eauto.
  - rewrite (parse_optional_no_dash _ _ Hdash). split; intros Hr.
    + rewrite (verify_int_range_ok 0 upper t n Hn Hr). reflexivity.
    + destruct (Z_le_gt_dec n 0) as [Hle|Hgt].
      * rewrite (verify_int_range_low 0 upper t n Hn Hle). eauto.
      * rewrite (verify_int_range_high 0 upper t n Hn ltac:(lia) ltac:(lia)). eauto.
Qed.

(** C3.  The length check never applies to a topic: argparse hands each
    [--topic]/[-t] value to [verify_str_length] as a string, not as a list,
    so the validator measures its characters one by one.  Every topic that
    does not begin with a dash is accepted whatever its length, the empty
    topic and topics of 255 characters or more included. *)
Theorem topic_accepted_whatever_its_length (flag s : string) :
  flag = "-t" \/ flag = "--topic" ->
  starts_with_dash s = false ->
  parse_args create_parser [flag; s] = Done (parsed [VStr s] 10 10).
Proof.
  intros Hflag Hs. pose proof (no_dash_not_dashes s Hs) as Hne.
  unfold parse_args, parse_known_args, parse_known_args_inner.
  assert (classify create_parser false [flag; s]
          = Done [(flag, pattern_O (Some topic_action, flag, None)); (s, pattern_A)])
    as ->.
  { cbn [classify]. rewrite (proj2 (String.eqb_neq s "--") Hne).
    rewrite (parse_optional_no_dash _ _ Hs). destruct Hflag as [-> | ->]; reflexivity. }
  cbn [obind]. rewrite consume_option_value by reflexivity.
  rewrite (take_action_one _ _ topic_action s topic_type) by (assumption || reflexivity).
  unfold converted, topic_type.
  rewrite verify_str_length_str by (unfold str_lower_default, str_upper_default; lia).
  reflexivity.
Qed.

Lemma topic_accepted_whatever_its_length_witness :
  String.length long_topic = 300%nat
  /\ parse_args create_parser ["-t"; long_topic] = Done (parsed [VStr long_topic] 10 10)
  /\ parse_args create_parser ["-t"; ""] = Done (parsed [VStr ""] 10 10).
Proof.
  split; [reflexivity|]. split.
  - apply (topic_accepted_whatever_its_length "-t" long_topic); [left|]; reflexivity.
  - apply (topic_accepted_whatever_its_length "-t" ""); [left|]; reflexivity.
Defined.

(** C4, as amended.  For every text [t] that [int] converts to an integer
    [n] other than 10, supplied as the value of [--article_count] or [-c],
    parsing accepts it if and only if [1 <= n <= 10], the range that
    [create_parser] documents ("between 1 and 10"); it then yields
    [article_count = n], and otherwise stops with a usage error.  Nothing is
    stated here about the value 10 itself. *)
Theorem article_count_accepted_range (flag t : string) (n : Z) :
  flag = "-c" \/ flag = "--article_count" ->
  py_int t = Ok n ->
  n <> 10 ->
  let outcome := parse_args create_parser ["-t"; "test"; flag; t] in
  (accepted outcome <-> 1 <= n <= 10)
  /\ (1 <= n <= 10 -> outcome = Done (parsed [VStr "test"] n 10))
  /\ (~ 1 <= n <= 10 -> usage_error outcome).
Proof.
  intros Hflag Hn Hten. cbv zeta.
  rewrite (parse_article_count flag t Hflag (py_int_not_dashes t n Hn)).
  destruct (int_option_result_cases article_count_action int_upper_default t n
              (fun n => parsed [VStr "test"] n 10) Hn) as [Hin Hout].
  unfold int_upper_default in *. split; [split|split].
  - intros Hacc. destruct (Z_le_gt_dec 1 n); [destruct (Z_le_gt_dec n 10)|]; try lia;
      exfalso; apply (usage_error_not_accepted _ (Hout ltac:(lia))); exact Hacc.
  - intros Hr. rewrite Hin by lia. eexists; reflexivity.
  - intros Hr. apply Hin. lia.
  - intros Hr. apply Hout. lia.
Qed.

Lemma article_count_accepted_range_witness :
  let outcome := parse_args create_parser ["-t"; "test"; "-c"; "9"] in
  (accepted outcome <-> 1 <= 9 <= 10)
  /\ (1 <= 9 <= 10 -> outcome = Done (parsed [VStr "test"] 9 10))
  /\ (~ 1 <= 9 <= 10 -> usage_error outcome).
Proof.
  apply (article_count_accepted_range "-c" "9" 9).
  - left. reflexivity.
  - reflexivity.
  - discriminate.
Defined.

(** C4, as stated, fails: [-c 1] is accepted although 1 is below the
    claimed range 2..24, and [-c 11] and [-c 24] are rejected although both
    lie in it. *)
Lemma article_count_claimed_range_fails :
  (parse_args create_parser ["-t"; "test"; "-c"; "1"]
   = Done (parsed [VStr "test"] 1 10)
   /\ py_int "1" = Ok 1 /\ ~ 2 <= 1 <= 24)
  /\
  (parse_args create_parser ["-t"; "test"; "-c"; "11"]
   = Stop (SystemExit 2 (Some (ArgumentErrorMessage ["--article_count"; "-c"]
                                 (TypeErrorText (ValueGreater 11 "11")))))
   /\ py_int "11" = Ok 11 /\ 2 <= 11 <= 24)
  /\
  (parse_args create_parser ["-t"; "test"; "-c"; "24"]
   = Stop (SystemExit 2 (Some (ArgumentErrorMessage ["--article_count"; "-c"]
                                 (TypeErrorText (ValueGreater 11 "24")))))
   /\ py_int "24" = Ok 24 /\ 2 <= 24 <= 24).
Proof.
  repeat split; try reflexivity; lia.
Qed.

(** C5.  For every text [t] that [int] converts to an integer [n], supplied
    as the value of [--timeout], parsing accepts it if and only if
    [1 <= n <= 59]; in particular 61, 1000 and -200 are rejected. *)
Theorem timeout_accepted_range :
  (forall (t : string) (n : Z),
      py_int t = Ok n ->
      let outcome := parse_args create_parser ["-t"; "test"; "--timeout"; t] in
      (accepted outcome <-> 1 <= n <= 59)
      /\ (1 <= n <= 59 -> outcome = Done (parsed [VStr "test"] 10 n))
      /\ (~ 1 <= n <= 59 -> usage_error outcome))
  /\ usage_error (parse_args create_parser ["-t"; "test"; "--timeout"; "61"])
  /\ usage_error (parse_args create_parser ["-t"; "test"; "--timeout"; "1000"])
  /\ usage_error (parse_args create_parser ["-t"; "test"; "--timeout"; "-200"]).
Proof.
  split; [|repeat split; eexists; reflexivity].
  intros t n Hn. cbv zeta.
  rewrite (parse_timeout t (py_int_not_dashes t n Hn)).
  destruct (int_option_result_cases timeout_action 60 t n
              (fun n => parsed [VStr "test"] 10 n) Hn) as [Hin Hout].
  split; [split|split].
  - intros Hacc. destruct (Z_le_gt_dec 1 n); [destruct (Z_le_gt_dec n 59)|]; try lia;
      exfalso; apply (usage_error_not_accepted _ (Hout ltac:(lia))); exact Hacc.
  - intros Hr. rewrite Hin by lia. eexists; reflexivity.
  - intros Hr. apply Hin. lia.
  - intros Hr. apply Hout. lia.
Qed.

Lemma timeout_accepted_range_witness :
  let outcome := parse_args create_parser ["-t"; "test"; "--timeout"; "59"] in
  (accepted outcome <-> 1 <= 59 <= 59)
  /\ (1 <= 59 <= 59 -> outcome = Done (parsed [VStr "test"] 10 59))
  /\ (~ 1 <= 59 <= 59 -> usage_error outcome).
Proof.
  apply (proj1 timeout_accepted_range "59" 59). reflexivity.
Defined.

(** C8.  Parsing [-t test -c 1] yields topic ["test"], article_count 1 and
    the default timeout 10; parsing [-t test -c 5] yields article_count 5. *)
Theorem parse_count_examples :
  parse_args create_parser ["-t"; "test"; "-c"; "1"]
  = Done [("topic", VList [VStr "test"]); ("article_count", VInt 1); ("timeout", VInt 10)]
  /\
  parse_args create_parser ["-t"; "test"; "-c"; "5"]
  = Done [("topic", VList [VStr "test"]); ("article_count", VInt 5); ("timeout", VInt 10)].
Proof. split; reflexivity. Qed.

(** C9.  Without [--article_count] the parsed article_count is the default
    10, which is never handed to the validator; supplied explicitly, [-c 10]
    is rejected, because 10 is not strictly below the default upper bound
    10. *)
Theorem default_count_outside_accepted_range :
  parse_args create_parser ["-t"; "test"]
  = Done [("topic", VList [VStr "test"]); ("article_count", VInt 10); ("timeout", VInt 10)]
  /\ int_upper_default = 10
  /\ verify_int_range int_lower_default int_upper_default "10"
     = Raise (ArgumentTypeError (ValueGreater 11 "10"))
  /\ parse_args create_parser ["-t"; "test"; "-c"; "10"]
     = Stop (SystemExit 2 (Some (ArgumentErrorMessage ["--article_count"; "-c"]
                                   (TypeErrorText (ValueGreater 11 "10"))))).
Proof. repeat split; reflexivity. Qed.

(** ** The main routine *)

Lemma run_parse_args_done (w : world) (args : Namespace) :
  parse_args create_parser (argv w) = Done args ->
  run_parse_args create_parser w = ([], inl args).
Proof. intros H. unfold run_parse_args, io_bind, ask. rewrite H. reflexivity. Qed.

Lemma main_after_parse (w : world) (args : Namespace) :
  parse_args create_parser (argv w) = Done args -> main w = after_parse args w.
Proof.
  intros H. unfold main. cbv zeta. unfold io_bind at 1.
  rewrite (run_parse_args_done w args H). unfold after_parse, fetch.
  destruct (io_bind _ _ w). reflexivity.
Qed.

Lemma after_parse_key_missing (w : world) (args : Namespace) :
  environ w !! "NEWS_KEY" = None ->
  after_parse args w =
    ([WriteStdout (Line (args_line args));
      LookupEnviron "NEWS_KEY";
      WriteStderr (Printed missing_key_text)],
     inr (Exit 22)).
Proof.
  intros Hkey. unfold after_parse. unfold_io. rewrite Hkey. reflexivity.
Qed.

Lemma after_parse_key_set (w : world) (args : Namespace) (key : string) :
  environ w !! "NEWS_KEY" = Some key ->
  after_parse args w =
    (WriteStdout (Line (args_line args)) :: LookupEnviron "NEWS_KEY" :: fst (fetch args w),
     snd (fetch args w)).
Proof.
  intros Hkey. unfold after_parse. unfold_io. rewrite Hkey. cbn [negb app].
  destruct (fetch args w). reflexivity.
Qed.

Lemma fetch_cases (args : Namespace) (w : world) :
  fetch_shape (fst (fetch args w)) (snd (fetch args w)).
Proof.
  unfold fetch. unfold_io.
  destruct (getattr args "topic") as [v|]; [|constructor].
  destruct (py_iter v) as [topic|e]; [|constructor].
  destruct (join_items " " topic) as [query|e]; [|constructor].
  destruct (getattr args "article_count") as [article_count|]; [|constructor].
  destruct (environ w !! "NEWS_KEY") as [key|]; [|constructor].
  destruct (network w _) as [|status json]; [constructor; reflexivity|].
  destruct ((400 <=? status) && (status <? 600)); [constructor; reflexivity|].
  destruct json; constructor; reflexivity.
Qed.

(** When the parser stops, [main] writes the parser's message and nothing
    else. *)
Lemma main_parse_stops (w : world) (s : signal) :
  parse_args create_parser (argv w) = Stop s ->
  forall r, ~ In (HttpGet r) (fst (main w)).
Proof.
  intros H r. unfold main. cbv zeta. unfold io_bind at 1.
  unfold run_parse_args, io_bind, ask. rewrite H.
  destruct s as [e|name text|status [m|]]; [| |destruct m|]; cbn;
    intros Hin; repeat (destruct Hin as [Hin|Hin]; try discriminate Hin);
    contradiction.
Qed.

(** C6.  The request of [main] never carries the parsed timeout: every
    [requests.get] that a run performs goes to [BASE_URL] and passes no
    [timeout], whatever [--timeout] was parsed to. *)
Theorem main_request_has_no_timeout (w : world) (r : request) :
  In (HttpGet r) (fst (main w)) -> url r = BASE_URL /\ timeout r = None.
Proof.
  destruct (parse_args create_parser (argv w)) as [args|s] eqn:Hparse.
  - rewrite (main_after_parse w args Hparse).
    destruct (environ w !! "NEWS_KEY") as [key|] eqn:Hkey.
    + rewrite (after_parse_key_set w args key Hkey). cbn [fst].
      pose proof (fetch_cases args w) as Hshape.
      intros [Hin|[Hin|Hin]]; try discriminate Hin.
      inversion Hshape as [e He|e He|r' e Hu Ht He|r' data Hu Ht He];
        rewrite <- He in Hin; cbn [In] in Hin;
        repeat (destruct Hin as [Hin|Hin]; try discriminate Hin); try contradiction;
        injection Hin as <-; split; assumption.
    + rewrite (after_parse_key_missing w args Hkey). cbn [fst In].
      intros Hin. repeat (destruct Hin as [Hin|Hin]; try discriminate Hin).
      contradiction.
  - intros Hin. destruct (main_parse_stops w s Hparse r Hin).
Qed.

Lemma main_request_has_no_timeout_witness :
  let w := sample_world ["-t"; "test"; "--timeout"; "5"] (Some "key") in
  let r := {| url := BASE_URL;
              params := [("q", "test"); ("lang", "en"); ("country", "us");
                         ("max", "10"); ("apikey", "key")];
              timeout := None |} in
  parse_args create_parser (argv w) = Done (parsed [VStr "test"] 10 5)
  /\ In (HttpGet r) (fst (main w))
  /\ url r = BASE_URL /\ timeout r = None.
Proof.
  cbv zeta.
  assert (In (HttpGet {| url := BASE_URL;
                         params := [("q", "test"); ("lang", "en"); ("country", "us");
                                    ("max", "10"); ("apikey", "key")];
                         timeout := None |})
            (fst (main (sample_world ["-t"; "test"; "--timeout"; "5"] (Some "key")))))
    as Hin.
  { vm_compute. right. right. right. left. reflexivity. }
  split; [reflexivity|]. split; [exact Hin|].
  exact (main_request_has_no_timeout _ _ Hin).
Defined.

(** C7.  On every run in which the arguments parse and [NEWS_KEY] is absent
    from the environment, [main] prints the fixed message to the error
    stream and exits with status 22; it performs no HTTP request. *)
Theorem main_missing_key (w : world) (args : Namespace) :
  parse_args create_parser (argv w) = Done args ->
  environ w !! "NEWS_KEY" = None ->
  main w =
    ([WriteStdout (Line (args_line args));
      LookupEnviron "NEWS_KEY";
      WriteStderr (Printed missing_key_text)],
     inr (Exit 22))
  /\ forall r, ~ In (HttpGet r) (fst (main w)).
Proof.
  intros Hparse Hkey.
  rewrite (main_after_parse w args Hparse), (after_parse_key_missing w args Hkey).
  split; [reflexivity|]. intros r [H|[H|[H|[]]]]; discriminate H.
Qed.

Lemma main_missing_key_witness :
  let w := sample_world ["-t"; "test"] None in
  main w =
    ([WriteStdout (Line (args_line (parsed [VStr "test"] 10 10)));
      LookupEnviron "NEWS_KEY";
      WriteStderr (Printed missing_key_text)],
     inr (Exit 22))
  /\ forall r, ~ In (HttpGet r) (fst (main w)).
Proof.
  apply (main_missing_key (sample_world ["-t"; "test"] None)); reflexivity.
Defined.

(** * Further properties of the validators, the parser and [main]

    ** Decimal numerals: [int] after [str] *)

Lemma scan_numeral_acc (d : Decimal.uint) :
  forall (acc : positive) (count : Z),
    scan_digits true (Z.pos acc) count (numeral d)
    = Some (Z.pos (Pos.of_uint_acc d acc), count + digits_of d).
Proof.
  unfold numeral, digits_of.
  induction d as [|d IH|d IH|d IH|d IH|d IH|d IH|d IH|d IH|d IH|d IH];
    intros acc count;
    [cbn; rewrite Z.add_0_r; reflexivity|..];
    read_digit; cbn [Pos.of_uint_acc Decimal.nb_digits];
    match goal with
    | |- scan_digits true ?a _ _ = Some (Z.pos (Pos.of_uint_acc _ ?b), _) =>
        replace a with (Z.pos b) by lia
    end;
    rewrite IH; f_equal; f_equal; lia.
Qed.

Lemma scan_numeral (d : Decimal.uint) :
  forall (after_digit : bool) (count : Z),
    after_digit = true \/ d <> Decimal.Nil ->
    scan_digits after_digit 0 count (numeral d)
    = Some (Z.of_N (Pos.of_uint d), count + digits_of d).
Proof.
  induction d as [|d IH|d IH|d IH|d IH|d IH|d IH|d IH|d IH|d IH|d IH];
    intros after_digit count H.
  1: { destruct H as [-> |H]; [|destruct (H eq_refl)].
       unfold digits_of. cbn. rewrite Z.add_0_r. reflexivity. }
  1: { unfold numeral. read_digit. change (10 * 0 + 0) with 0. fold (numeral d).
       rewrite (IH true (count + 1)) by (left; reflexivity).
       unfold digits_of. cbn [Pos.of_uint Decimal.nb_digits]. f_equal. f_equal. lia. }
  all: unfold numeral; read_digit; fold (numeral d);
    match goal with
    | |- scan_digits true ?a _ _ = _ =>
        let v := eval vm_compute in a in change a with v
    end;
    rewrite scan_numeral_acc; unfold digits_of;
    cbn [Pos.of_uint Decimal.nb_digits Z.of_N]; f_equal; f_equal; lia.
Qed.

Lemma drop_spaces_no_space (cs : list ascii) :
  no_space cs -> drop_spaces cs = cs.
Proof. intros [|c rest Hc _]; [reflexivity|]. cbn [drop_spaces]. rewrite Hc. reflexivity. Qed.

Lemma strip_spaces_no_space (cs : list ascii) :
  no_space cs -> strip_spaces cs = cs.
Proof.
  intros H. unfold strip_spaces. rewrite (drop_spaces_no_space cs H).
  rewrite drop_spaces_no_space by (apply Forall_rev; exact H).
  apply rev_involutive.
Qed.

Lemma numeral_no_space (d : Decimal.uint) : no_space (numeral d).
Proof.
  unfold numeral.
  induction d; cbn [NilEmpty.string_of_uint list_ascii_of_string];
    constructor; (reflexivity || assumption).
Qed.

(** The numeral of a positive number begins with a digit that is not zero. *)
Lemma to_uint_head (p : positive) :
  exists (k : positive) (rest : Decimal.uint),
    (k <= 9)%positive
    /\ Z.pos p = Z.pos (Pos.of_uint_acc rest k)
    /\ digits_of (Pos.to_uint p) = 1 + digits_of rest
    /\ exists c, numeral (Pos.to_uint p) = c :: numeral rest
                 /\ c <> "+"%char /\ c <> "-"%char
                 /\ digit_value c = Some (Z.pos k).
Proof.
  pose proof (DecimalPos.Unsigned.of_to p) as Hof.
  pose proof (DecimalPos.Unsigned.to_of (Pos.to_uint p)) as Hnorm.
  rewrite Hof in Hnorm. change (N.to_uint (N.pos p)) with (Pos.to_uint p) in Hnorm.
  pose proof (DecimalPos.Unsigned.to_uint_nonzero p) as Hnz.
  unfold digits_of, numeral.
  destruct (Pos.to_uint p) as [|d|d|d|d|d|d|d|d|d|d] eqn:E.
  1: discriminate Hof.
  1: { exfalso.
       assert (Hd : d = Decimal.Nil \/ d <> Decimal.Nil)
         by (destruct d; [left; reflexivity|right; discriminate..]).
       destruct Hd as [-> |Hd]; [apply Hnz; reflexivity|].
       pose proof (DecimalFacts.nb_digits_unorm d Hd) as Hle.
       change (Decimal.unorm (Decimal.D0 d)) with (Decimal.unorm d) in Hnorm.
       rewrite <- Hnorm in Hle. cbn [Decimal.nb_digits] in Hle. lia. }
  all: cbn [Pos.of_uint] in Hof; injection Hof as Hof;
    match type of Hof with Pos.of_uint_acc _ ?k = _ => exists k, d end;
    (repeat split; [lia|congruence|cbn [Decimal.nb_digits]; lia|]);
    eexists; (split; [reflexivity|]); repeat split; discriminate.
Qed.

Lemma of_uint_acc_lower (d : Decimal.uint) :
  forall acc : positive,
    Z.pos acc * 10 ^ digits_of d <= Z.pos (Pos.of_uint_acc d acc).
Proof.
  unfold digits_of.
  induction d as [|d IH|d IH|d IH|d IH|d IH|d IH|d IH|d IH|d IH|d IH]; intros acc;
    [cbn; lia|..];
    cbn [Pos.of_uint_acc Decimal.nb_digits];
    rewrite Nat2Z.inj_succ, Z.pow_succ_r by lia;
    (etransitivity; [|apply IH]);
    pose proof (Z.pow_pos_nonneg 10 (Z.of_nat (Decimal.nb_digits d)) ltac:(lia) ltac:(lia));
    nia.
Qed.

Lemma split_literal_numeral (d : Decimal.uint) :
  split_literal (numeral d) = (numeral d, []).
Proof.
  unfold numeral.
  induction d; cbn [NilEmpty.string_of_uint list_ascii_of_string split_literal];
    [reflexivity|..];
    match goal with
    | |- context [is_literal_char ?c] =>
        change (is_literal_char c) with true
    end;
    cbv iota; rewrite IHd; reflexivity.
Qed.

Lemma py_int_no_sign (text : string) (c : ascii) (rest : list ascii) :
  strip_spaces (list_ascii_of_string text) = c :: rest ->
  c <> "+"%char -> c <> "-"%char ->
  py_int text
  = let '(literal, following) := split_literal (c :: rest) in
    match scan_digits false 0 0 literal with
    | None => Raise (ValueErrorExn (InvalidLiteral text))
    | Some (v, count) =>
        if count >? int_max_str_digits
        then Raise (ValueErrorExn (ExceedsDigitLimit count))
        else match following with
             | [] => Ok v
             | _ :: _ => Raise (ValueErrorExn (InvalidLiteral text))
             end
    end.
Proof.
  intros H Hplus Hminus. unfold py_int. rewrite H.
  destruct c as [[] [] [] [] [] [] [] []];
    try reflexivity; [destruct (Hplus eq_refl)|destruct (Hminus eq_refl)].
Qed.

Lemma py_int_negative (text : string) (rest : list ascii) :
  strip_spaces (list_ascii_of_string text) = "-"%char :: rest ->
  split_literal rest = (rest, []) ->
  py_int text
  = match scan_digits false 0 0 rest with
    | None => Raise (ValueErrorExn (InvalidLiteral text))
    | Some (v, count) =>
        if count >? int_max_str_digits
        then Raise (ValueErrorExn (ExceedsDigitLimit count))
        else Ok (- v)
    end.
Proof. intros H Hsplit. unfold py_int. rewrite H, Hsplit. reflexivity. Qed.

Lemma string_of_uint_nonnil (d : Decimal.uint) :
  d <> Decimal.Nil -> NilZero.string_of_uint d = NilEmpty.string_of_uint d.
Proof. destruct d; [intros H; destruct (H eq_refl)|reflexivity..]. Qed.

Lemma digits_below_limit (p : positive) (limit : Z) :
  0 <= limit -> Z.pos p < 10 ^ limit -> digits_of (Pos.to_uint p) <= limit.
Proof.
  intros Hl Hp.
  destruct (to_uint_head p) as (k & rest & Hk & Hv & Hd & _).
  pose proof (of_uint_acc_lower rest k) as Hlow. rewrite <- Hv in Hlow.
  assert (Hr : 0 <= digits_of rest) by (unfold digits_of; lia).
  assert (Hpow : 0 < 10 ^ digits_of rest) by (apply Z.pow_pos_nonneg; lia).
  assert (Hlt : 10 ^ digits_of rest < 10 ^ limit) by nia.
  apply Z.pow_lt_mono_r_iff in Hlt; lia.
Qed.

Lemma py_int_str_int (n : Z) :
  Z.abs n < 10 ^ int_max_str_digits -> py_int (str_int n) = Ok n.
Proof.
  intros Hn. destruct n as [|p|p].
  - reflexivity.
  - pose proof (digits_below_limit p int_max_str_digits ltac:(discriminate) Hn) as Hd.
    destruct (to_uint_head p) as (k & rest & _ & _ & _ & c & Hc & Hplus & Hminus & _).
    unfold str_int. cbn [Z.to_int NilZero.string_of_int].
    rewrite string_of_uint_nonnil by apply DecimalPos.Unsigned.to_uint_nonnil.
    fold (numeral (Pos.to_uint p)) in Hc.
    rewrite (py_int_no_sign _ c (numeral rest));
      [|fold (numeral (Pos.to_uint p));
        rewrite strip_spaces_no_space by apply numeral_no_space; exact Hc
       |exact Hplus|exact Hminus].
    rewrite <- Hc, split_literal_numeral.
    rewrite scan_numeral by (right; apply DecimalPos.Unsigned.to_uint_nonnil).
    rewrite DecimalPos.Unsigned.of_to. cbn [Z.of_N].
    destruct (Z.gtb_spec (0 + digits_of (Pos.to_uint p)) int_max_str_digits); [lia|].
    reflexivity.
  - pose proof (digits_below_limit p int_max_str_digits ltac:(discriminate) Hn) as Hd.
    unfold str_int. cbn [Z.to_int NilZero.string_of_int].
    rewrite string_of_uint_nonnil by apply DecimalPos.Unsigned.to_uint_nonnil.
    rewrite (py_int_negative _ (numeral (Pos.to_uint p)));
      [| |apply split_literal_numeral].
    + rewrite scan_numeral by (right; apply DecimalPos.Unsigned.to_uint_nonnil).
      rewrite DecimalPos.Unsigned.of_to. cbn [Z.of_N].
      destruct (Z.gtb_spec (0 + digits_of (Pos.to_uint p)) int_max_str_digits); [lia|].
      reflexivity.
    + cbn [list_ascii_of_string]. fold (numeral (Pos.to_uint p)).
      apply strip_spaces_no_space. constructor; [reflexivity|apply numeral_no_space].
Qed.

Lemma below_digit_limit (n : Z) :
  Z.abs n < 100 -> Z.abs n < 10 ^ int_max_str_digits.
Proof.
  intros H. apply (Z.lt_le_trans _ (10 ^ 2)); [exact H|].
  apply Z.pow_le_mono_r; [lia|discriminate].
Qed.

(** X1.  For every integer [n] below the interpreter's limit of 4300
    digits, [int] reads the decimal text [str(n)] back as [n]; so
    [verify_int_range] applied to that text returns [n] exactly when
    [lower < n < upper], and otherwise raises the error of the bound that
    [n] violates, the lower bound first. *)
Theorem verify_int_range_decimal (lower upper n : Z) :
  Z.abs n < 10 ^ int_max_str_digits ->
  verify_int_range lower upper (str_int n)
  = if n <=? lower then Raise (ArgumentTypeError (ValueLess (lower - 1) (str_int n)))
    else if n >=? upper
         then Raise (ArgumentTypeError (ValueGreater (upper + 1) (str_int n)))
         else Ok n.
Proof.
  intros Hn. unfold verify_int_range. rewrite (py_int_str_int n Hn). reflexivity.
Qed.

Lemma verify_int_range_decimal_witness :
  Z.abs 5 < 10 ^ int_max_str_digits
  /\ verify_int_range 0 10 "5" = Ok 5.
Proof.
  split; [apply below_digit_limit; reflexivity|].
  apply (verify_int_range_decimal 0 10 5). apply below_digit_limit. reflexivity.
Defined.

Lemma drop_spaces_app (cs rest : list ascii) :
  no_space rest -> drop_spaces (cs ++ rest) = (drop_spaces cs ++ rest)%list.
Proof.
  intros Hrest. induction cs as [|c cs IH].
  - apply drop_spaces_no_space. exact Hrest.
  - cbn [app drop_spaces]. destruct (is_int_space c); [exact IH|reflexivity].
Qed.

Lemma drop_spaces_suffix (cs : list ascii) :
  exists before, cs = (before ++ drop_spaces cs)%list.
Proof.
  induction cs as [|c cs [before IH]]; [exists []; reflexivity|].
  cbn [drop_spaces]. destruct (is_int_space c).
  - exists (c :: before). cbn [app]. rewrite <- IH. reflexivity.
  - exists []. reflexivity.
Qed.

(** Stripping keeps a numeral at the head and a prefix of what follows. *)
Lemma strip_spaces_numeral (d : Decimal.uint) (following : list ascii) :
  d <> Decimal.Nil -> ends_literal following ->
  exists kept,
    strip_spaces (numeral d ++ following) = (numeral d ++ kept)%list
    /\ ends_literal kept.
Proof.
  intros Hd Hend. exists (rev (drop_spaces (rev following))). split.
  - unfold strip_spaces.
    assert (Hhead : drop_spaces (numeral d ++ following) = (numeral d ++ following)%list).
    { pose proof (numeral_no_space d) as Hn. unfold numeral in *.
      destruct d; [destruct (Hd eq_refl)|..];
        cbn [NilEmpty.string_of_uint list_ascii_of_string app drop_spaces] in *;
        inversion Hn as [|? ? Hc _]; rewrite Hc; reflexivity. }
    rewrite Hhead, rev_app_distr, drop_spaces_app
      by (apply Forall_rev, numeral_no_space).
    rewrite rev_app_distr, rev_involutive. reflexivity.
  - destruct (drop_spaces_suffix (rev following)) as [before Hb].
    apply (f_equal (@rev ascii)) in Hb. rewrite rev_involutive, rev_app_distr in Hb.
    destruct (rev (drop_spaces (rev following))) as [|c kept]; [exact I|].
    rewrite Hb in Hend. exact Hend.
Qed.

Lemma split_literal_numeral_app (d : Decimal.uint) (following : list ascii) :
  ends_literal following ->
  split_literal (numeral d ++ following) = (numeral d, following).
Proof.
  intros Hend. unfold numeral.
  induction d; cbn [NilEmpty.string_of_uint list_ascii_of_string app split_literal];
    [destruct following as [|c following]; [reflexivity|];
     cbn [split_literal]; cbn [ends_literal] in Hend; rewrite Hend; reflexivity|..];
    match goal with
    | |- context [is_literal_char ?c] =>
        change (is_literal_char c) with true
    end;
    cbv iota; rewrite IHd; reflexivity.
Qed.

Lemma numeral_head (d : Decimal.uint) :
  d <> Decimal.Nil ->
  exists c rest, numeral d = c :: rest /\ c <> "+"%char /\ c <> "-"%char.
Proof.
  intros Hd. unfold numeral.
  destruct d; [destruct (Hd eq_refl)|..];
    cbn [NilEmpty.string_of_uint list_ascii_of_string];
    eexists _, _; (split; [reflexivity|]); split; discriminate.
Qed.

(** A literal of more digits than the limit is refused for its length,
    whatever follows it. *)
Lemma py_int_digit_limit (d : Decimal.uint) (following : list ascii) :
  int_max_str_digits < digits_of d -> ends_literal following ->
  py_int (string_of_list_ascii (numeral d ++ following))
  = Raise (ValueErrorExn (ExceedsDigitLimit (digits_of d))).
Proof.
  intros Hlimit Hend.
  assert (Hd : d <> Decimal.Nil) by (intros ->; discriminate Hlimit).
  destruct (strip_spaces_numeral d following Hd Hend) as (kept & Hstrip & Hkept).
  destruct (numeral_head d Hd) as (c & rest & Hc & Hplus & Hminus).
  rewrite (py_int_no_sign _ c (rest ++ kept)%list);
    [|rewrite list_ascii_of_string_of_list_ascii, Hstrip, Hc; reflexivity
     |exact Hplus|exact Hminus].
  change (c :: rest ++ kept)%list with ((c :: rest) ++ kept)%list.
  rewrite <- Hc, (split_literal_numeral_app d kept Hkept).
  rewrite scan_numeral by (right; exact Hd). cbn [Z.of_N].
  rewrite Z.add_0_l.
  destruct (Z.gtb_spec (digits_of d) int_max_str_digits); [reflexivity|lia].
Qed.

(** X20.  [int] tests the length of a literal before it looks at what
    follows it: applied to a numeral of more than 4300 digits, followed by
    nothing or by anything that does not continue the literal (a letter, a
    point, a space and more text), [verify_int_range] raises the
    [ArgumentTypeError] that carries the digit-limit error with the number
    of digits, not the one for an invalid literal. *)
Theorem verify_int_range_digit_limit (lower upper : Z) (d : Decimal.uint)
    (following : list ascii) :
  int_max_str_digits < digits_of d -> ends_literal following ->
  verify_int_range lower upper (string_of_list_ascii (numeral d ++ following))
  = Raise (ArgumentTypeError (ConversionError (ExceedsDigitLimit (digits_of d)))).
Proof.
  intros Hlimit Hend. unfold verify_int_range.
  rewrite (py_int_digit_limit d following Hlimit Hend). reflexivity.
Qed.

Lemma verify_int_range_digit_limit_witness :
  verify_int_range 0 10 (string_of_list_ascii (numeral long_numeral ++ ["x"%char]))
  = Raise (ArgumentTypeError (ConversionError (ExceedsDigitLimit 4301))).
Proof.
  apply (verify_int_range_digit_limit 0 10 long_numeral ["x"%char]);
    [vm_compute; reflexivity|reflexivity].
Defined.

(** ** The string validator applied to a string *)

(** X2.  [verify_str_length], applied to a string instead of a list of
    strings, looks at its characters and never at its length: the empty
    string passes for all bounds, any other string passes when
    [lower < 1 < upper], and is otherwise rejected with the error that names
    its first character, of length 1. *)
Theorem verify_str_length_on_str (lower upper : Z) (s : string) :
  (s = EmptyString \/ lower < 1 < upper ->
   verify_str_length lower upper (VStr s) = Ok (VStr s))
  /\ (forall c rest,
        s = String c rest -> ~ lower < 1 < upper ->
        verify_str_length lower upper (VStr s)
        = Raise (length_error lower upper (String c EmptyString))).
Proof.
  split.
  - intros [-> |H]; [reflexivity|]. apply verify_str_length_str. exact H.
  - intros c rest -> H. unfold verify_str_length, length_error.
    cbn [py_iter list_ascii_of_string map bind check_lengths py_len String.length].
    change (Z.of_nat 1) with 1.
    destruct (Z.leb_spec 1 lower); [reflexivity|].
    destruct (Z.geb_spec 1 upper); [reflexivity|lia].
Qed.

Lemma verify_str_length_on_str_witness :
  verify_str_length 0 255 (VStr long_topic) = Ok (VStr long_topic)
  /\ verify_str_length 1 255 (VStr "news")
     = Raise (ArgumentTypeError (LengthLower 0 1 (VStr "n"))).
Proof.
  split.
  - apply (verify_str_length_on_str 0 255 long_topic). right. lia.
  - apply (proj2 (verify_str_length_on_str 1 255 "news") "n"%char "ews"); [reflexivity|lia].
Defined.

(** ** Command lines of options and their values *)

Lemma py_int_positive_no_dash (v : string) (n : Z) :
  py_int v = Ok n -> 0 < n -> starts_with_dash v = false.
Proof.
  intros Hv Hn. destruct (starts_with_dash v) eqn:Hd; [|reflexivity].
  pose proof (py_int_dash_nonpositive v n Hd Hv). lia.
Qed.

Lemma well_formed_no_dash (flag v : string) :
  well_formed (flag, v) -> starts_with_dash v = false.
Proof.
  intros [[_ H]|[[_ (n & Hn & Hr)]|[_ (n & Hn & Hr)]]]; [exact H| |];
    apply (py_int_positive_no_dash v n Hn); lia.
Qed.

Lemma well_formed_flag (flag v : string) :
  well_formed (flag, v) ->
  parse_optional create_parser flag = Done (Some (Some (flag_action flag), flag, None))
  /\ String.eqb flag "--" = false
  /\ nargs (flag_action flag) = 1%nat.
Proof.
  intros [[[-> | ->] _]|[[[-> | ->] _]|[-> _]]]; repeat split; reflexivity.
Qed.

Lemma classify_flatten (pairs : list (string * string)) (tail : list string) :
  Forall well_formed pairs ->
  classify create_parser false (flatten pairs ++ tail) =
  do* r <- classify create_parser false tail;
  Done (pair_patterns pairs ++ r)%list.
Proof.
  induction 1 as [|[flag v] pairs Hwf _ IH].
  - cbn [flatten flat_map pair_patterns app].
    destruct (classify create_parser false tail); reflexivity.
  - destruct (well_formed_flag flag v Hwf) as (Hflag & Hne & _).
    pose proof (well_formed_no_dash flag v Hwf) as Hv.
    change (flatten ((flag, v) :: pairs) ++ tail)%list
      with (flag :: v :: (flatten pairs ++ tail))%list.
    cbn [classify]. rewrite Hne, Hflag.
    rewrite (proj2 (String.eqb_neq v "--") (no_dash_not_dashes v Hv)).
    rewrite (parse_optional_no_dash _ _ Hv), IH. cbn [obind].
    destruct (classify create_parser false tail); reflexivity.
Qed.

Lemma topic_value_snoc (topics : list string) (v : string) :
  topic_value (topics ++ [v]) = VList (map VStr topics ++ [VStr v]).
Proof.
  unfold topic_value. destruct topics as [|s topics]; [reflexivity|].
  change ((s :: topics) ++ [v])%list with (s :: (topics ++ [v]))%list.
  f_equal. exact (List.map_app VStr (s :: topics) [v]).
Qed.

Lemma take_action_well_formed (acc : list string * Z * Z) (seen : list (list string))
    (flag v : string) :
  well_formed (flag, v) ->
  take_action create_parser (state_of acc seen) (flag_action flag) [v]
  = Done (state_of (record_pair acc (flag, v)) (action_name (flag_action flag) :: seen)).
Proof.
  intros Hwf. pose proof (well_formed_no_dash flag v Hwf) as Hv.
  pose proof (no_dash_not_dashes v Hv) as Hne.
  destruct acc as [[topics c] t].
  destruct Hwf as [[Hflag _]|[[Hflag (n & Hn & Hr)]|[Hflag (n & Hn & Hr)]]].
  - assert (flag_action flag = topic_action /\ is_topic_flag flag = true) as [-> Hf]
      by (destruct Hflag as [-> | ->]; split; reflexivity).
    rewrite (take_action_one _ _ topic_action v topic_type) by (assumption || reflexivity).
    unfold converted, topic_type, record_pair. rewrite Hf.
    rewrite verify_str_length_str by (unfold str_lower_default, str_upper_default; lia).
    cbn [obind]. unfold state_of. rewrite topic_value_snoc.
    destruct topics; reflexivity.
  - assert (flag_action flag = article_count_action
            /\ is_topic_flag flag = false /\ is_count_flag flag = true) as (-> & Hf1 & Hf2)
      by (destruct Hflag as [-> | ->]; repeat split; reflexivity).
    rewrite (take_action_one _ _ article_count_action v (int_type int_upper_default))
      by (assumption || reflexivity).
    rewrite int_type_converted. unfold record_pair, int_of. rewrite Hf1, Hf2, Hn.
    rewrite (verify_int_range_ok int_lower_default int_upper_default v n Hn)
      by (unfold int_lower_default, int_upper_default; lia).
    reflexivity.
  - assert (flag_action flag = timeout_action
            /\ is_topic_flag flag = false /\ is_count_flag flag = false) as (-> & Hf1 & Hf2)
      by (rewrite Hflag; repeat split; reflexivity).
    rewrite (take_action_one _ _ timeout_action v (int_type 60))
      by (assumption || reflexivity).
    rewrite int_type_converted. unfold record_pair, int_of. rewrite Hf1, Hf2, Hn.
    rewrite (verify_int_range_ok int_lower_default 60 v n Hn)
      by (unfold int_lower_default; lia).
    reflexivity.
Qed.

Lemma consume_well_formed (pairs : list (string * string))
    (tail : list (string * arg_pattern)) :
  Forall well_formed pairs ->
  forall acc seen,
    consume create_parser (state_of acc seen) (pair_patterns pairs ++ tail)
    = consume create_parser
        (state_of (fold_left record_pair pairs acc) (seen_after pairs seen)) tail.
Proof.
  induction 1 as [|[flag v] pairs Hwf _ IH]; intros acc seen; [reflexivity|].
  change (pair_patterns ((flag, v) :: pairs) ++ tail)%list
    with ((flag, pattern_O (Some (flag_action flag), flag, None))
            :: (v, pattern_A) :: (pair_patterns pairs ++ tail))%list.
  rewrite consume_option_value by (apply (well_formed_flag flag v Hwf)).
  rewrite (take_action_well_formed acc seen flag v Hwf). cbn [obind].
  apply IH.
Qed.

(** The topic has been seen exactly when a topic has been recorded. *)
Lemma topic_seen_after (pairs : list (string * string)) :
  Forall well_formed pairs ->
  forall acc seen,
    topic_seen seen = match fst (fst acc) with [] => false | _ => true end ->
    topic_seen (seen_after pairs seen)
    = match fst (fst (fold_left record_pair pairs acc)) with [] => false | _ => true end.
Proof.
  induction 1 as [|[flag v] pairs Hwf _ IH]; intros [[topics c] t] seen Hseen;
    [exact Hseen|].
  cbn [fold_left seen_after]. apply IH. cbn [fst] in *.
  destruct Hwf as [[Hflag _]|[[Hflag _]|[Hflag _]]].
  - assert (flag_action flag = topic_action /\ is_topic_flag flag = true) as [-> Hf]
      by (destruct Hflag as [-> | ->]; split; reflexivity).
    unfold record_pair. rewrite Hf. cbn [fst]. destruct topics; reflexivity.
  - assert (flag_action flag = article_count_action
            /\ is_topic_flag flag = false /\ is_count_flag flag = true) as (-> & Hf1 & Hf2)
      by (destruct Hflag as [-> | ->]; repeat split; reflexivity).
    unfold record_pair. rewrite Hf1, Hf2. cbn [fst]. exact Hseen.
  - assert (flag_action flag = timeout_action
            /\ is_topic_flag flag = false /\ is_count_flag flag = false) as (-> & Hf1 & Hf2)
      by (rewrite Hflag; repeat split; reflexivity).
    unfold record_pair. rewrite Hf1, Hf2. cbn [fst]. exact Hseen.
Qed.

(** The required check: an optional action whose default is no string
    changes nothing; a required action that was not seen is reported. *)
Lemma check_required_optional (st : parse_state) (a : Action) (rest : list Action)
    (ns : Namespace) (required_actions : list (list string)) :
  required a = false ->
  match default_value a with Some (VStr _) => False | _ => True end ->
  check_required st (a :: rest) ns required_actions
  = check_required st rest ns required_actions.
Proof.
  intros Hr Hd. cbn [check_required]. rewrite Hr.
  destruct (seen st a); [reflexivity|].
  destruct (default_value a) as [[| | |]|]; try reflexivity. contradiction.
Qed.

Lemma check_required_required (st : parse_state) (a : Action) (rest : list Action)
    (ns : Namespace) (required_actions : list (list string)) :
  required a = true ->
  check_required st (a :: rest) ns required_actions
  = check_required st rest ns
      (if seen st a then required_actions
       else (required_actions ++ [action_name a])%list).
Proof.
  intros Hr. cbn [check_required]. rewrite Hr. destruct (seen st a); reflexivity.
Qed.

(** The required check of [create_parser]: only the topic is required, and
    no default is a string. *)
Lemma check_required_create_parser (st : parse_state) (ns : Namespace) :
  check_required st (actions create_parser) ns []
  = Done (ns, if topic_seen (seen_actions st) then [] else [["--topic"; "-t"]]).
Proof.
  change (actions create_parser)
    with [ {| option_strings := ["-h"; "--help"]; dest := "help"; action := help_action;
              type := None; default_value := None; required := false;
              help := "show this help message and exit" |};
           topic_action;
           {| option_strings := ["--version"; "-v"]; dest := "version";
              action := version "%(prog)s 1.0"; type := None; default_value := None;
              required := false; help := "show program's version number and exit" |};
           article_count_action; timeout_action ].
  rewrite check_required_optional by (reflexivity || exact I).
  rewrite check_required_required by reflexivity.
  rewrite !check_required_optional by (reflexivity || exact I).
  change (seen st topic_action) with (topic_seen (seen_actions st)).
  destruct (topic_seen (seen_actions st)); reflexivity.
Qed.

Lemma initial_state_of :
  {| namespace := initial_namespace create_parser; seen_actions := []; extras := [] |}
  = state_of ([], 10, 10) [].
Proof. reflexivity. Qed.

Lemma parse_pairs (pairs : list (string * string)) :
  Forall well_formed pairs ->
  parse_args create_parser (flatten pairs) = pairs_outcome pairs.
Proof.
  intros Hwf. unfold parse_args, parse_known_args, parse_known_args_inner, pairs_outcome.
  rewrite <- (app_nil_r (flatten pairs)), (classify_flatten pairs [] Hwf).
  cbn [classify obind]. rewrite initial_state_of, (consume_well_formed pairs [] Hwf).
  cbn [app consume obind]. rewrite check_required_create_parser. cbn [obind].
  pose proof (topic_seen_after pairs Hwf ([], 10, 10) [] eq_refl) as Hseen.
  destruct (fold_left record_pair pairs ([], 10, 10)) as [[topics c] t].
  cbn [state_of seen_actions fst] in *. rewrite Hseen.
  destruct topics; reflexivity.
Qed.

Lemma last_int_skip (test : string -> bool) (flag v : string)
    (pairs : list (string * string)) (default : Z) :
  test flag = false ->
  last_int test ((flag, v) :: pairs) default = last_int test pairs default.
Proof. intros H. unfold last_int, values_of. cbn [List.filter fst]. rewrite H. reflexivity. Qed.

Lemma last_default (l : list Z) (a default : Z) :
  List.last (a :: l) default = List.last l a.
Proof.
  revert a default. induction l as [|b l IH]; intros a default; [reflexivity|].
  change (List.last (a :: b :: l) default) with (List.last (b :: l) default).
  rewrite (IH b default), (IH b a). reflexivity.
Qed.

Lemma last_int_take (test : string -> bool) (flag v : string)
    (pairs : list (string * string)) (default : Z) :
  test flag = true ->
  last_int test ((flag, v) :: pairs) default = last_int test pairs (int_of v).
Proof.
  intros H. unfold last_int, values_of. cbn [List.filter fst]. rewrite H.
  cbn [map snd]. apply last_default.
Qed.

Lemma fold_record_pair (pairs : list (string * string)) :
  Forall well_formed pairs ->
  forall (topics : list string) (article_count timeout : Z),
    fold_left record_pair pairs (topics, article_count, timeout)
    = ((topics ++ topics_of pairs)%list,
       last_int is_count_flag pairs article_count,
       last_int is_timeout_flag pairs timeout).
Proof.
  induction 1 as [|[flag v] pairs Hwf _ IH]; intros topics c t.
  - cbn. rewrite app_nil_r. reflexivity.
  - cbn [fold_left]. destruct Hwf as [[Hf _]|[[Hf _]|[Hf _]]].
    + assert (Ht : is_topic_flag flag = true) by (destruct Hf as [-> | ->]; reflexivity).
      assert (Hc : is_count_flag flag = false) by (destruct Hf as [-> | ->]; reflexivity).
      assert (Ho : is_timeout_flag flag = false) by (destruct Hf as [-> | ->]; reflexivity).
      unfold record_pair. rewrite Ht, IH, (last_int_skip _ _ _ _ _ Hc), (last_int_skip _ _ _ _ _ Ho).
      unfold topics_of, values_of. cbn [List.filter fst]. rewrite Ht. cbn [map snd].
      rewrite <- app_assoc. reflexivity.
    + assert (Ht : is_topic_flag flag = false) by (destruct Hf as [-> | ->]; reflexivity).
      assert (Hc : is_count_flag flag = true) by (destruct Hf as [-> | ->]; reflexivity).
      assert (Ho : is_timeout_flag flag = false) by (destruct Hf as [-> | ->]; reflexivity).
      unfold record_pair. rewrite Ht, Hc, IH, (last_int_take _ _ _ _ _ Hc), (last_int_skip _ _ _ _ _ Ho).
      unfold topics_of, values_of. cbn [List.filter fst]. rewrite Ht. reflexivity.
    + subst flag. unfold record_pair.
      change (is_topic_flag "--timeout") with false.
      change (is_count_flag "--timeout") with false. cbn match.
      rewrite IH, (last_int_skip is_count_flag) by reflexivity.
      rewrite (last_int_take is_timeout_flag) by reflexivity. reflexivity.
Qed.

Lemma pairs_outcome_values (pairs : list (string * string)) :
  Forall well_formed pairs ->
  pairs_outcome pairs
  = match topics_of pairs with
    | [] => Stop (SystemExit 2 (Some (RequiredArguments [["--topic"; "-t"]])))
    | topics =>
        Done (parsed (map VStr topics) (last_int is_count_flag pairs 10)
                (last_int is_timeout_flag pairs 10))
    end.
Proof.
  intros Hwf. unfold pairs_outcome. rewrite (fold_record_pair pairs Hwf).
  cbn [app]. destruct (topics_of pairs); reflexivity.
Qed.

Lemma sample_pairs_well_formed : Forall well_formed sample_pairs.
Proof. unfold sample_pairs. accept_pairs. Qed.

(** X3.  A command line of options each followed by its value, in any
    order and with either spelling, every value acceptable and at least one
    topic among them, parses: [topic] lists the topics in the order given,
    [article_count] and [timeout] are the integers of the last value given
    to them, 10 when the option is absent. *)
Theorem parse_args_pairs (pairs : list (string * string)) :
  Forall well_formed pairs -> topics_of pairs <> [] ->
  parse_args create_parser (flatten pairs)
  = Done (parsed (map VStr (topics_of pairs))
            (last_int is_count_flag pairs 10)
            (last_int is_timeout_flag pairs 10)).
Proof.
  intros Hwf Hne. rewrite (parse_pairs pairs Hwf), (pairs_outcome_values pairs Hwf).
  destruct (topics_of pairs); [destruct (Hne eq_refl)|reflexivity].
Qed.

Lemma parse_args_pairs_witness :
  parse_args create_parser
    ["--timeout"; "20"; "-t"; "a"; "-c"; "3"; "--topic"; "b c"; "--article_count"; "5"]
  = Done (parsed [VStr "a"; VStr "b c"] 5 20).
Proof.
  apply (parse_args_pairs sample_pairs sample_pairs_well_formed). discriminate.
Defined.

(** X4.  The same command line without a topic ends in the usage error
    that reports the topic option as required, whatever the other options
    say. *)
Theorem parse_args_pairs_without_topic (pairs : list (string * string)) :
  Forall well_formed pairs -> topics_of pairs = [] ->
  parse_args create_parser (flatten pairs)
  = Stop (SystemExit 2 (Some (RequiredArguments [["--topic"; "-t"]]))).
Proof.
  intros Hwf He. rewrite (parse_pairs pairs Hwf), (pairs_outcome_values pairs Hwf), He.
  reflexivity.
Qed.

Lemma parse_args_pairs_without_topic_witness :
  parse_args create_parser ["-c"; "3"; "--timeout"; "20"]
  = Stop (SystemExit 2 (Some (RequiredArguments [["--topic"; "-t"]]))).
Proof.
  apply (parse_args_pairs_without_topic [("-c", "3"); ("--timeout", "20")]);
    [accept_pairs|reflexivity].
Defined.

Lemma classify_plain (args : list string) :
  Forall no_dash args ->
  classify create_parser false args = Done (plain_patterns args).
Proof.
  induction 1 as [|s args Hs _ IH]; [reflexivity|]. cbn [classify].
  rewrite (proj2 (String.eqb_neq s "--") (no_dash_not_dashes s Hs)).
  rewrite (parse_optional_no_dash _ _ Hs), IH. reflexivity.
Qed.

Lemma consume_plain (args : list string) :
  forall st, consume create_parser st (plain_patterns args) = Done (with_extras st args).
Proof.
  induction args as [|s args IH]; intros st.
  - unfold with_extras. rewrite app_nil_r. destruct st; reflexivity.
  - cbn [plain_patterns map consume]. fold (plain_patterns args). rewrite IH.
    unfold with_extras, add_extra. cbn [namespace seen_actions extras].
    rewrite <- app_assoc. reflexivity.
Qed.

(** X5.  When no argument begins with a dash, the parser stops with the
    usage error for the required topic option: also on the empty command
    line, and before any complaint about the arguments it does not
    recognise. *)
Theorem parse_args_no_option (args : list string) :
  Forall no_dash args ->
  parse_args create_parser args
  = Stop (SystemExit 2 (Some (RequiredArguments [["--topic"; "-t"]]))).
Proof.
  intros Hargs. unfold parse_args, parse_known_args, parse_known_args_inner.
  rewrite (classify_plain args Hargs). cbn [obind]. rewrite consume_plain. cbn [obind].
  rewrite check_required_create_parser. reflexivity.
Qed.

Lemma parse_args_no_option_witness :
  parse_args create_parser ["news"; "today"]
  = Stop (SystemExit 2 (Some (RequiredArguments [["--topic"; "-t"]]))).
Proof. apply (parse_args_no_option ["news"; "today"]). repeat constructor. Defined.

(** X6.  A command line that ends in an option that takes a value, after
    any acceptable options and values, stops with the usage error
    [expected one argument] for that option. *)
Theorem parse_missing_value (pairs : list (string * string)) (flag : string) :
  Forall well_formed pairs -> value_flag flag ->
  parse_args create_parser (flatten pairs ++ [flag])
  = Stop (SystemExit 2
            (Some (ArgumentErrorMessage (action_name (flag_action flag))
                     ExpectedOneArgument))).
Proof.
  intros Hwf Hflag.
  unfold parse_args, parse_known_args, parse_known_args_inner.
  rewrite (classify_flatten pairs [flag] Hwf).
  assert (classify create_parser false [flag]
          = Done [(flag, pattern_O (Some (flag_action flag), flag, None))]) as ->.
  { destruct Hflag as [<-|[<-|[<-|[<-|[<-|[]]]]]]; reflexivity. }
  cbn [obind]. rewrite initial_state_of, (consume_well_formed pairs _ Hwf).
  cbn [consume]. unfold consume_optional, match_following.
  assert (nargs (flag_action flag) = 1%nat) as ->
    by (destruct Hflag as [<-|[<-|[<-|[<-|[<-|[]]]]]]; reflexivity).
  reflexivity.
Qed.

Lemma parse_missing_value_witness :
  parse_args create_parser ["-t"; "test"; "-c"]
  = Stop (SystemExit 2
            (Some (ArgumentErrorMessage ["--article_count"; "-c"] ExpectedOneArgument))).
Proof.
  apply (parse_missing_value [("-t", "test")] "-c").
  - repeat constructor.
  - right. right. left. reflexivity.
Defined.

(** A value that [int] does not convert is rejected by both integer
    options. *)
Lemma int_option_result_not_int (a : Action) (upper : Z) (t : string) (e : exception)
    (ok : Z -> Namespace) :
  py_int t = Raise e -> usage_error (int_option_result a upper t ok).
Proof.
  intros Ht. unfold int_option_result, usage_error.
  destruct (parse_optional create_parser t) as [[c|]|x] eqn:Hc.
  - eauto.
  - destruct (verify_int_range_not_int int_lower_default upper t e Ht) as (v & _ & ->).
    eauto.
  - destruct (parse_optional_stops _ _ _ Hc) as [m ->]. eauto.
Qed.

(** X7.  A value that [int] does not convert is rejected by
    [--article_count], [-c] and [--timeout]: parsing stops with a usage
    error. *)
Theorem non_integer_value_rejected (flag t : string) (e : exception) :
  flag = "-c" \/ flag = "--article_count" \/ flag = "--timeout" ->
  py_int t = Raise e ->
  usage_error (parse_args create_parser ["-t"; "test"; flag; t]).
Proof.
  intros Hflag Ht. destruct (String.eqb_spec t "--") as [->|Hne].
  - destruct Hflag as [-> | [-> | ->]]; eexists; reflexivity.
  - destruct Hflag as [Hc | [Hc | ->]].
    + rewrite (parse_article_count flag t (or_introl Hc) Hne).
      exact (int_option_result_not_int _ _ t e _ Ht).
    + rewrite (parse_article_count flag t (or_intror Hc) Hne).
      exact (int_option_result_not_int _ _ t e _ Ht).
    + rewrite (parse_timeout t Hne). exact (int_option_result_not_int _ _ t e _ Ht).
Qed.

Lemma non_integer_value_rejected_witness :
  usage_error (parse_args create_parser ["-t"; "test"; "--timeout"; "1.5"]).
Proof.
  apply (non_integer_value_rejected "--timeout" "1.5"
           (ValueErrorExn (InvalidLiteral "1.5")));
    [right; right; reflexivity|reflexivity].
Defined.

(** X8.  The version option, in either spelling and after any acceptable
    options and values, stops the parser with the text [News Crawler 1.0]
    and status 0, even when no topic has been given. *)
Theorem parse_version (pairs : list (string * string)) (flag : string)
    (rest : list string) :
  Forall well_formed pairs -> flag = "-v" \/ flag = "--version" ->
  Forall no_dash rest ->
  parse_args create_parser (flatten pairs ++ flag :: rest) = Stop version_exit.
Proof.
  intros Hwf Hflag Hrest.
  unfold parse_args, parse_known_args, parse_known_args_inner.
  rewrite (classify_flatten pairs (flag :: rest) Hwf).
  assert (classify create_parser false (flag :: rest)
          = Done ((flag, pattern_O (Some version_action, flag, None))
                    :: plain_patterns rest)) as ->.
  { cbn [classify]. rewrite (classify_plain rest Hrest).
    destruct Hflag as [-> | ->]; reflexivity. }
  cbn [obind]. rewrite initial_state_of, (consume_well_formed pairs _ Hwf).
  cbn [consume]. unfold consume_optional, match_following.
  cbn [nargs action version_action obind take_actions].
  destruct (fold_left record_pair pairs ([], 10, 10)) as [[topics c] t].
  reflexivity.
Qed.

Lemma parse_version_witness :
  parse_args create_parser ["-t"; "a"; "-v"; "more"] = Stop version_exit.
Proof.
  apply (parse_version [("-t", "a")] "-v" ["more"]);
    [accept_pairs|left; reflexivity|repeat constructor].
Defined.

(** X9.  The help option, which [ArgumentParser] adds, stops the parser
    with the help text and status 0 in the same way. *)
Theorem parse_help (pairs : list (string * string)) (flag : string)
    (rest : list string) :
  Forall well_formed pairs -> flag = "-h" \/ flag = "--help" ->
  Forall no_dash rest ->
  parse_args create_parser (flatten pairs ++ flag :: rest) = Stop help_exit.
Proof.
  intros Hwf Hflag Hrest.
  unfold parse_args, parse_known_args, parse_known_args_inner.
  rewrite (classify_flatten pairs (flag :: rest) Hwf).
  assert (classify create_parser false (flag :: rest)
          = Done ((flag, pattern_O (Some help_record, flag, None))
                    :: plain_patterns rest)) as ->.
  { cbn [classify]. rewrite (classify_plain rest Hrest).
    destruct Hflag as [-> | ->]; reflexivity. }
  cbn [obind]. rewrite initial_state_of, (consume_well_formed pairs _ Hwf).
  cbn [consume]. unfold consume_optional, match_following.
  cbn [nargs action help_record obind take_actions].
  destruct (fold_left record_pair pairs ([], 10, 10)) as [[topics c] t].
  reflexivity.
Qed.

Lemma parse_help_witness :
  parse_args create_parser ["--help"] = Stop help_exit.
Proof.
  apply (parse_help [] "--help" []); [constructor|right; reflexivity|constructor].
Defined.

(** ** Every command line

    An invariant of the parser loop: the namespace keeps its three
    attributes, each with a value its action can store, and the loop stops
    only with an [ArgumentError] or the exit of the version or help
    action. *)

Lemma assoc_in {A} (k : string) (l : list (string * A)) (v : A) :
  assoc k l = Some v -> exists k', In (k', v) l.
Proof.
  induction l as [|[k' w] l IH]; [discriminate|]. simpl.
  destruct (String.eqb k k').
  - intros [= ->]. exists k'. left. reflexivity.
  - intros H. destruct (IH H) as [k'' Hin]. exists k''. right. exact Hin.
Qed.

Lemma option_string_actions_in (p : ArgumentParser) (s : string) (a : Action) :
  In (s, a) (option_string_actions p) -> In a (actions p).
Proof.
  unfold option_string_actions. rewrite in_flat_map.
  intros (b & Hb & Hin). apply in_map_iff in Hin as (s' & [= _ <-] & _). exact Hb.
Qed.

Lemma assoc_known (p : ArgumentParser) (s : string) (a : Action) :
  assoc s (option_string_actions p) = Some a -> In a (actions p).
Proof.
  intros H. destruct (assoc_in _ _ _ H) as [k Hin].
  exact (option_string_actions_in p k a Hin).
Qed.

Lemma flat_map_known (p : ArgumentParser)
    (f : string * Action -> list option_tuple) (a : Action) (os : string)
    (e : option string) :
  (forall s b t, In t (f (s, b)) -> fst (fst t) = Some b) ->
  In (Some a, os, e) (flat_map f (option_string_actions p)) -> In a (actions p).
Proof.
  intros Hf. rewrite in_flat_map. intros ([s b] & Hb & Hin).
  pose proof (Hf s b _ Hin) as Heq. cbn [fst] in Heq. injection Heq as ->.
  exact (option_string_actions_in p s b Hb).
Qed.

Lemma get_option_tuples_known (p : ArgumentParser) (s os : string) (a : Action)
    (e : option string) :
  In (Some a, os, e) (get_option_tuples p s) -> In a (actions p).
Proof.
  unfold get_option_tuples.
  repeat case_match; try contradiction; apply flat_map_known;
    intros s' act tup Hin; repeat case_match; cbn [In] in Hin;
    try contradiction; destruct Hin as [<-|[]]; reflexivity.
Qed.

Lemma parse_optional_known (p : ArgumentParser) (s os : string) (a : Action)
    (e : option string) :
  parse_optional p s = Done (Some (Some a, os, e)) -> In a (actions p).
Proof.
  unfold parse_optional, parser_error.
  destruct s as [|c s]; [discriminate|].
  destruct (negb _); [discriminate|].
  destruct (assoc (String c s) (option_string_actions p)) as [b|] eqn:Hb.
  { intros [= <- _ _]. exact (assoc_known p _ b Hb). }
  destruct (Nat.eqb _ _); [discriminate|].
  destruct (split_once "=" (String c s)) as [[l r]|].
  - destruct (assoc l (option_string_actions p)) as [b|] eqn:Hl.
    { intros [= <- _ _]. exact (assoc_known p _ b Hl). }
    destruct (get_option_tuples p (String c s)) as [|t [|t' ts]] eqn:Hg.
    + repeat case_match; discriminate.
    + intros [= ->]. apply (get_option_tuples_known p (String c s) os a e).
      rewrite Hg. left. reflexivity.
    + discriminate.
  - destruct (get_option_tuples p (String c s)) as [|t [|t' ts]] eqn:Hg.
    + repeat case_match; discriminate.
    + intros [= ->]. apply (get_option_tuples_known p (String c s) os a e).
      rewrite Hg. left. reflexivity.
    + discriminate.
Qed.

Lemma classify_known (p : ArgumentParser) (args : list string) :
  forall after_dashes pats,
    classify p after_dashes args = Done pats -> Forall (known_pattern p) pats.
Proof.
  induction args as [|s args IH]; intros after_dashes pats; cbn [classify].
  - intros [= <-]. constructor.
  - destruct after_dashes.
    + destruct (classify p true args) as [r|x] eqn:Hr; [|discriminate].
      intros [= <-]. constructor; [exact I|]. exact (IH _ _ Hr).
    + destruct (String.eqb s "--").
      * destruct (classify p true args) as [r|x] eqn:Hr; [|discriminate].
        intros [= <-]. constructor; [exact I|]. exact (IH _ _ Hr).
      * destruct (parse_optional p s) as [t|x] eqn:Ht; [|discriminate]. cbn [obind].
        destruct (classify p false args) as [r|x] eqn:Hr; [|discriminate].
        intros [= <-]. constructor; [|exact (IH _ _ Hr)].
        unfold known_pattern. cbn [snd].
        destruct t as [[[[a|] os] e]|]; try exact I.
        exact (parse_optional_known p s os a e Ht).
Qed.

Lemma parse_optional_ambiguous (p : ArgumentParser) (s : string) (x : signal) :
  parse_optional p s = Stop x -> usage_exit x.
Proof.
  unfold parse_optional, parser_error, usage_exit. intros H.
  repeat case_match; try discriminate.
  all: try (injection H as <-; eexists; split; [reflexivity|exact I]).
Qed.

Lemma classify_stops (p : ArgumentParser) (args : list string) :
  forall after_dashes x,
    classify p after_dashes args = Stop x -> usage_exit x.
Proof.
  induction args as [|s args IH]; intros after_dashes x; cbn [classify]; [discriminate|].
  destruct after_dashes.
  - destruct (classify p true args) as [r|y] eqn:Hr; [discriminate|].
    intros [= <-]. exact (IH _ _ Hr).
  - destruct (String.eqb s "--").
    + destruct (classify p true args) as [r|y] eqn:Hr; [discriminate|].
      intros [= <-]. exact (IH _ _ Hr).
    + destruct (parse_optional p s) as [t|y] eqn:Ht; cbn [obind].
      * destruct (classify p false args) as [r|y] eqn:Hr; [discriminate|].
        intros [= <-]. exact (IH _ _ Hr).
      * intros [= <-]. exact (parse_optional_ambiguous p s y Ht).
Qed.

Lemma verify_int_range_returns (lower upper : Z) (t : string) (n : Z) :
  verify_int_range lower upper t = Ok n -> lower < n < upper.
Proof.
  unfold verify_int_range. destruct (py_int t) as [m|[| | | |e]]; cbn [bind];
    try discriminate.
  destruct (Z.leb_spec m lower); [discriminate|].
  destruct (Z.geb_spec m upper); [discriminate|]. intros [= <-]. lia.
Qed.

Lemma verify_int_range_raises (lower upper : Z) (t : string) (e : exception) :
  verify_int_range lower upper t = Raise e -> exists text, e = ArgumentTypeError text.
Proof.
  unfold verify_int_range. destruct (py_int t) as [m|x] eqn:Ht; cbn [bind].
  - destruct (m <=? lower); [intros [= <-]; eauto|].
    destruct (m >=? upper); [intros [= <-]; eauto|discriminate].
  - destruct (py_int_raises t x Ht) as [v ->]. intros [= <-]. eauto.
Qed.

(** The value an integer option stores for one argument string. *)
Lemma get_value_int (a : Action) (upper : Z) (x : string) :
  type a = Some (int_type upper) ->
  (exists n, get_value a x = Done (VInt n) /\ 0 < n < upper)
  \/ exists text, get_value a x = Stop (ArgumentError (action_name a) text).
Proof.
  intros Ha. unfold get_value. rewrite Ha. unfold int_type.
  destruct (verify_int_range int_lower_default upper x) as [n|e] eqn:Hv; cbn [bind].
  - left. exists n. split; [reflexivity|].
    exact (verify_int_range_returns _ _ _ _ Hv).
  - right. destruct (verify_int_range_raises _ _ _ _ Hv) as [text ->]. eauto.
Qed.

Lemma get_value_topic (x : string) : get_value topic_action x = Done (VStr x).
Proof.
  unfold get_value. cbn [type topic_action]. unfold topic_type.
  rewrite verify_str_length_str by (unfold str_lower_default, str_upper_default; lia).
  reflexivity.
Qed.

(** With at most one argument string, an action that takes one argument
    stores the empty list or the converted string. *)
Lemma get_values_short (a : Action) (args : list string) :
  (length args <= 1)%nat -> nargs a = 1%nat ->
  get_values a args = Done (VList [])
  \/ exists x, get_values a args = get_value a x.
Proof.
  intros Hlen Hn. unfold get_values. rewrite Hn.
  destruct args as [|x [|y args]]; [left; reflexivity| |cbn in Hlen; lia].
  cbn [remove_dashes]. destruct (String.eqb x "--"); [left; reflexivity|].
  right. exists x. reflexivity.
Qed.

Lemma known_actions (a : Action) :
  In a (actions create_parser) ->
  (nargs a = 0%nat /\ type a = None
   /\ (action a = help_action \/ action a = version "%(prog)s 1.0"))
  \/ a = topic_action \/ a = article_count_action \/ a = timeout_action.
Proof.
  intros [<-|[<-|[<-|[<-|[<-|[]]]]]].
  - left. repeat split. left. reflexivity.
  - right. left. reflexivity.
  - left. repeat split. right. reflexivity.
  - right. right. left. reflexivity.
  - right. right. right. reflexivity.
Qed.

Lemma get_value_list_untyped (a : Action) (args : list string) :
  type a = None -> get_value_list a args = Done (map VStr args).
Proof.
  intros Ha. induction args as [|x args IH]; [reflexivity|].
  cbn [get_value_list map]. unfold get_value at 1. rewrite Ha, IH. reflexivity.
Qed.

Lemma good_item_snoc (items : list pyval) (v : pyval) :
  Forall good_item items -> good_item v -> Forall good_item (items ++ [v]).
Proof. intros Hi Hv. apply Forall_app. split; [exact Hi|]. constructor; [exact Hv|constructor]. Qed.

Lemma take_action_good (st : parse_state) (a : Action) (args : list string) :
  In a (actions create_parser) -> (length args <= 1)%nat -> good_state st ->
  match take_action create_parser st a args with
  | Done st' => good_state st'
  | Stop s => benign s
  end.
Proof.
  intros Ha Hlen (T & C & O & Hns & HT & HC & HO & Hseen).
  unfold take_action.
  destruct (known_actions a Ha) as [(Hn & Hty & Hact)|[-> | [-> | ->]]].
  - (* help and version *)
    unfold get_values. rewrite Hn.
    destruct (remove_dashes args) as [|x [|y l]];
      rewrite (get_value_list_untyped a _ Hty); cbn [obind]; unfold call_action;
      (destruct Hact as [-> | ->]; [right; right; reflexivity|right; left; reflexivity]).
  - (* topic *)
    assert (exists v, get_values topic_action args = Done v /\ good_item v) as (v & -> & Hv).
    { destruct (get_values_short topic_action args Hlen eq_refl) as [->|[x ->]].
      - exists (VList []). split; [reflexivity|]. right. reflexivity.
      - rewrite get_value_topic. exists (VStr x). split; [reflexivity|]. left. eauto. }
    cbn [obind]. unfold call_action. cbn [action dest topic_action]. rewrite Hns.
    destruct HT as [->|(items & -> & Hne & Hitems)].
    + cbn. exists (VList [v]), C, O. repeat split; try assumption.
      * right. exists [v]. repeat split; [discriminate|]. constructor; [exact Hv|constructor].
      * discriminate.
    + cbn. exists (VList (items ++ [v])), C, O. repeat split; try assumption.
      * right. exists (items ++ [v])%list. repeat split.
        -- destruct items; discriminate.
        -- apply good_item_snoc; assumption.
      * discriminate.
  - (* article_count *)
    assert ((exists v, get_values article_count_action args = Done v /\ good_int 10 v)
            \/ exists text, get_values article_count_action args
                            = Stop (ArgumentError (action_name article_count_action) text))
      as [(v & -> & Hv)|[text ->]].
    { destruct (get_values_short article_count_action args Hlen eq_refl) as [->|[x ->]].
      - left. exists (VList []). split; [reflexivity|]. left. reflexivity.
      - destruct (get_value_int article_count_action int_upper_default x eq_refl)
          as [(n & -> & Hn)|[text ->]].
        + left. exists (VInt n). split; [reflexivity|]. right. exists n.
          unfold int_upper_default in Hn. split; [reflexivity|lia].
        + right. eauto. }
    + cbn [obind]. unfold call_action. cbn [action dest article_count_action]. rewrite Hns.
      cbn. exists T, v, O. repeat split; assumption.
    + cbn [obind]. left. eauto.
  - (* timeout *)
    assert ((exists v, get_values timeout_action args = Done v /\ good_int 59 v)
            \/ exists text, get_values timeout_action args
                            = Stop (ArgumentError (action_name timeout_action) text))
      as [(v & -> & Hv)|[text ->]].
    { destruct (get_values_short timeout_action args Hlen eq_refl) as [->|[x ->]].
      - left. exists (VList []). split; [reflexivity|]. left. reflexivity.
      - destruct (get_value_int timeout_action 60 x eq_refl)
          as [(n & -> & Hn)|[text ->]].
        + left. exists (VInt n). split; [reflexivity|]. right. exists n.
          split; [reflexivity|lia].
        + right. eauto. }
    + cbn [obind]. unfold call_action. cbn [action dest timeout_action]. rewrite Hns.
      cbn. exists T, C, v. repeat split; assumption.
    + cbn [obind]. left. eauto.
Qed.

Lemma match_following_good (a : Action) (following : list (string * arg_pattern)) :
  In a (actions create_parser) ->
  match match_following a following with
  | Done (a', args, _) => known_tuple (a', args)
  | Stop s => benign s
  end.
Proof.
  intros Ha. unfold match_following.
  destruct (nargs a); [split; [exact Ha|cbn; lia]|].
  destruct following as [|[s [| |t]] rest]; try (left; eauto; fail).
  split; [exact Ha|cbn; lia].
Qed.

Lemma consume_explicit_good (following : list (string * arg_pattern))
    (explicit_arg : string) :
  forall a option_string action_tuples,
    In a (actions create_parser) -> Forall known_tuple action_tuples ->
    match consume_explicit create_parser a option_string explicit_arg following
            action_tuples with
    | Done (tuples, _) => Forall known_tuple tuples
    | Stop s => benign s
    end.
Proof.
  induction explicit_arg as [|c e IH]; intros a os tuples Ha Htuples;
    cbn [consume_explicit].
  - destruct (nargs a); [left; eauto|].
    apply Forall_app. split; [exact Htuples|].
    constructor; [split; [exact Ha|cbn; lia]|constructor].
  - destruct (nargs a).
    + destruct (match os with String _ (String c0 _) => negb (Ascii.eqb c0 "-") | _ => false end);
        [|left; eauto].
      destruct (assoc _ (option_string_actions create_parser)) as [a'|] eqn:Hassoc;
        [|left; eauto].
      pose proof (assoc_known _ _ _ Hassoc) as Ha'.
      assert (Forall known_tuple (tuples ++ [(a, [])])) as Htuples'.
      { apply Forall_app. split; [exact Htuples|].
        constructor; [split; [exact Ha|cbn; lia]|constructor]. }
      destruct e as [|c' e'].
      * pose proof (match_following_good a' following Ha') as Hm.
        destruct (match_following a' following) as [[[a'' args] n]|s]; cbn [obind];
          [|exact Hm].
        apply Forall_app. split; [exact Htuples'|]. constructor; [exact Hm|constructor].
      * apply IH; assumption.
    + apply Forall_app. split; [exact Htuples|].
      constructor; [split; [exact Ha|cbn; lia]|constructor].
Qed.

Lemma take_actions_good (action_tuples : list (Action * list string)) :
  Forall known_tuple action_tuples ->
  forall st, good_state st ->
    good_or_benign (take_actions create_parser st action_tuples).
Proof.
  induction 1 as [|[a args] tuples [Ha Hlen] _ IH]; intros st Hst; [exact Hst|].
  cbn [take_actions]. pose proof (take_action_good st a args Ha Hlen Hst) as Hstep.
  destruct (take_action create_parser st a args) as [st'|s]; cbn [obind];
    [apply IH; exact Hstep|exact Hstep].
Qed.

Lemma consume_optional_good (st : parse_state) (a : Action) (option_string : string)
    (explicit_arg : option string) (following : list (string * arg_pattern)) :
  In a (actions create_parser) -> good_state st ->
  match consume_optional create_parser st a option_string explicit_arg following with
  | Done (st', _) => good_state st'
  | Stop s => benign s
  end.
Proof.
  intros Ha Hst. unfold consume_optional.
  assert (match match explicit_arg with
                | Some e => consume_explicit create_parser a option_string e following []
                | None =>
                    do* r <- match_following a following;
                    let '(a0, args, n) := r in Done ([(a0, args)], n)
                end with
          | Done (tuples, _) => Forall known_tuple tuples
          | Stop s => benign s
          end) as Htuples.
  { destruct explicit_arg as [e|].
    - apply consume_explicit_good; [exact Ha|constructor].
    - pose proof (match_following_good a following Ha) as Hm.
      destruct (match_following a following) as [[[a' args] n]|s]; cbn [obind];
        [|exact Hm].
      constructor; [exact Hm|constructor]. }
  destruct (match explicit_arg with Some _ => _ | None => _ end) as [[tuples n]|s];
    cbn [obind]; [|exact Htuples].
  pose proof (take_actions_good tuples Htuples st Hst) as Htake.
  destruct (take_actions create_parser st tuples) as [st'|s]; exact Htake.
Qed.

Lemma add_extra_good (st : parse_state) (s : string) :
  good_state st -> good_state (add_extra st s).
Proof. intros H. exact H. Qed.

Lemma consume_good (n : nat) :
  forall pats st,
    (length pats <= n)%nat ->
    Forall (known_pattern create_parser) pats -> good_state st ->
    good_or_benign (consume create_parser st pats).
Proof.
  induction n as [|n IH]; intros pats st Hlen Hpats Hst.
  - destruct pats; [exact Hst|cbn in Hlen; lia].
  - destruct pats as [|[s pat] rest]; [exact Hst|].
    cbn [length] in Hlen. inversion Hpats as [|? ? Hpat Hrest]; subst.
    assert (forall st', good_state st' -> good_or_benign (consume create_parser st' rest))
      as Hnext by (intros st' Hst'; apply IH; [lia|assumption|assumption]).
    cbn [consume].
    destruct pat as [| |[[[a|] os] e]]; try (apply Hnext, add_extra_good, Hst).
    pose proof (consume_optional_good st a os e rest Hpat Hst) as Hopt.
    destruct (consume_optional create_parser st a os e rest) as [[st' used]|x];
      cbn [obind]; [|exact Hopt].
    destruct used as [|used]; [apply Hnext, Hopt|].
    destruct rest as [|y rest']; [exact Hopt|].
    apply IH; [cbn [length] in Hlen; lia| |exact Hopt].
    inversion Hrest; assumption.
Qed.

Lemma initial_state_good :
  good_state {| namespace := initial_namespace create_parser;
                seen_actions := []; extras := [] |}.
Proof.
  exists VNone, (VInt 10), (VInt 10). repeat split.
  - left. reflexivity.
  - right. exists 10. split; [reflexivity|lia].
  - right. exists 10. split; [reflexivity|lia].
  - discriminate.
Qed.

(** What [parse_known_args] can do on any argument vector. *)
Lemma parse_known_args_cases (args : list string) :
  match parse_known_args create_parser args with
  | Done (ns, _) => good_namespace ns
  | Stop s => parser_exit s
  end.
Proof.
  unfold parse_known_args, parse_known_args_inner, parser_exit, usage_exit.
  destruct (classify create_parser false args) as [pats|x] eqn:Hc; cbn [obind].
  - pose proof (consume_good (length pats) pats _ (Nat.le_refl _)
                  (classify_known _ _ _ _ Hc) initial_state_good) as Hst.
    destruct (consume create_parser _ pats) as [st|x]; cbn [obind].
    + rewrite check_required_create_parser. cbn [obind].
      destruct Hst as (T & C & O & Hns & HT & HC & HO & Hseen).
      destruct (topic_seen (seen_actions st));
        [|left; eexists; split; [reflexivity|exact I]].
      destruct HT as [->|(items & -> & Hne & Hitems)]; [destruct (Hseen eq_refl eq_refl)|].
      exists items, C, O. rewrite Hns. repeat split; assumption.
    + destruct Hst as [(name & text & ->)|[-> | ->]].
      * left. eexists; split; [reflexivity|exact I].
      * right. left. reflexivity.
      * right. right. reflexivity.
  - destruct (classify_stops _ _ _ _ Hc) as (m & -> & Hm).
    left. exists m. split; [reflexivity|exact Hm].
Qed.

Lemma parse_args_cases (args : list string) :
  match parse_args create_parser args with
  | Done ns => good_namespace ns
  | Stop s => parser_exit s
  end.
Proof.
  unfold parse_args. pose proof (parse_known_args_cases args) as H.
  destruct (parse_known_args create_parser args) as [[ns argv]|s]; cbn [obind];
    [|exact H].
  destruct argv; [exact H|]. left. eexists; split; [reflexivity|exact I].
Qed.

(** X10.  Whatever the command line, a namespace that the parser returns
    has exactly the attributes [topic], [article_count] and [timeout], in
    this order; [topic] is a list of strings that is not empty,
    [article_count] is an integer from 1 to 10 and [timeout] one from 1 to
    59.  The one exception is the empty list that an explicit [--] leaves
    (as in [--topic=--]), in place of a topic or of either integer. *)
Theorem parse_args_namespace (args : list string) (ns : Namespace) :
  parse_args create_parser args = Done ns -> good_namespace ns.
Proof.
  intros H. pose proof (parse_args_cases args) as Hc. rewrite H in Hc. exact Hc.
Qed.

Lemma parse_args_namespace_witness :
  good_namespace (parsed [VStr "test"] 10 10).
Proof. apply (parse_args_namespace ["-t"; "test"]). reflexivity. Defined.

(** X11.  Whatever the command line, the parser stops in one of three
    ways only: a usage error with status 2, the version text with status 0,
    the help text with status 0.  No exception of a validator escapes it. *)
Theorem parse_args_exits (args : list string) (s : signal) :
  parse_args create_parser args = Stop s -> parser_exit s.
Proof.
  intros H. pose proof (parse_args_cases args) as Hc. rewrite H in Hc. exact Hc.
Qed.

Lemma parse_args_exits_witness :
  parser_exit (SystemExit 2 (Some (RequiredArguments [["--topic"; "-t"]]))).
Proof. apply (parse_args_exits ["-c"; "5"]). reflexivity. Defined.

(** ** The runs of [main] *)

Lemma string_append_assoc (a b c : string) :
  ((a ++ b) ++ c = a ++ (b ++ c))%string.
Proof.
  induction a as [|x a IH]; [reflexivity|].
  change (String x ((a ++ b) ++ c) = String x (a ++ (b ++ c)))%string.
  rewrite IH. reflexivity.
Qed.

(** The text of the line for the namespaces of [create_parser]. *)
Lemma args_line_text (topic article_count timeout : pyval) :
  args_line [("topic", topic); ("article_count", article_count); ("timeout", timeout)]
  = ("args are Namespace(topic=" ++ py_repr topic
     ++ ", article_count=" ++ py_repr article_count
     ++ ", timeout=" ++ py_repr timeout ++ ")")%string.
Proof.
  unfold args_line, namespace_repr. cbn [map String.concat].
  rewrite !string_append_assoc. reflexivity.
Qed.

Lemma py_repr_strings (topics : list string) :
  py_repr (VList (map VStr topics))
  = ("[" ++ String.concat ", " (map repr_str topics) ++ "]")%string.
Proof.
  cbn [py_repr]. rewrite List.map_map. reflexivity.
Qed.

(** C10.  On every run in which the arguments parse, the first thing [main]
    does is write one line to standard output: the text "args are " and
    then the parsed arguments as [Namespace(topic=..., article_count=...,
    timeout=...)], each attribute with the [repr] of its value; for topics
    that are strings and integer options this is the bracketed list of the
    quoted topics and the two decimal numbers.  The line comes before the
    look-up of [NEWS_KEY] and before any request.  Standard output holds
    that line, followed by the pretty-printed JSON result when the run gets
    that far. *)
Theorem main_prints_args_first (w : world) (args : Namespace) :
  parse_args create_parser (argv w) = Done args ->
  (exists topic article_count timeout,
      args = [("topic", topic); ("article_count", article_count); ("timeout", timeout)]
      /\ args_line args
         = ("args are Namespace(topic=" ++ py_repr topic
            ++ ", article_count=" ++ py_repr article_count
            ++ ", timeout=" ++ py_repr timeout ++ ")")%string)
  /\ (forall topics article_count timeout,
         args = parsed (map VStr topics) article_count timeout ->
         args_line args
         = ("args are Namespace(topic=[" ++ String.concat ", " (map repr_str topics)
            ++ "], article_count=" ++ str_int article_count
            ++ ", timeout=" ++ str_int timeout ++ ")")%string)
  /\ exists rest,
      fst (main w) = WriteStdout (Line (args_line args)) :: LookupEnviron "NEWS_KEY" :: rest
      /\ (stdout_of (fst (main w)) = [Line (args_line args)]
          \/ exists data, stdout_of (fst (main w)) = [Line (args_line args); PrettyPrinted data])
      /\ (snd (main w) = inl tt ->
          exists data, stdout_of (fst (main w)) = [Line (args_line args); PrettyPrinted data]).
Proof.
  intros Hparse. split; [|split].
  - pose proof (parse_args_cases (argv w)) as Hc. rewrite Hparse in Hc.
    destruct Hc as (items & c & t & -> & _).
    exists (VList items), c, t. split; [reflexivity|]. apply args_line_text.
  - intros topics c t ->. unfold parsed.
    rewrite args_line_text, py_repr_strings. cbn [py_repr].
    rewrite !string_append_assoc. reflexivity.
  - rewrite (main_after_parse w args Hparse).
    destruct (environ w !! "NEWS_KEY") as [key|] eqn:Hkey.
    + rewrite (after_parse_key_set w args key Hkey). cbn [fst snd].
      exists (fst (fetch args w)). split; [reflexivity|].
      pose proof (fetch_cases args w) as Hshape.
      inversion Hshape as [e He Hs|e He Hs|r' e Hu Ht He Hs|r' data Hu Ht He Hs];
        cbn [stdout_of flat_map app]; (split; [|discriminate || eauto]); eauto.
    + rewrite (after_parse_key_missing w args Hkey). cbn [fst snd].
      eexists. split; [reflexivity|]. split; [left; reflexivity|discriminate].
Qed.

Lemma main_prints_args_first_witness :
  let w := sample_world ["-t"; "test"; "-t"; "covid 19"; "-c"; "5"] (Some "key") in
  let line := Line "args are Namespace(topic=['test', 'covid 19'], article_count=5, timeout=10)" in
  exists rest data,
    fst (main w) = WriteStdout line :: LookupEnviron "NEWS_KEY" :: rest
    /\ stdout_of (fst (main w)) = [line; PrettyPrinted data].
Proof.
  cbv zeta.
  destruct (main_prints_args_first
              (sample_world ["-t"; "test"; "-t"; "covid 19"; "-c"; "5"] (Some "key"))
              (parsed [VStr "test"; VStr "covid 19"] 5 10) eq_refl)
    as (_ & Htext & rest & Hfirst & _ & Hreturns).
  rewrite (Htext ["test"; "covid 19"] 5 10 eq_refl) in Hfirst, Hreturns.
  destruct (Hreturns eq_refl) as (data & Hout).
  exists rest, data. split; [exact Hfirst|exact Hout].
Defined.

(** The parser's exit as [main] shows it. *)
Lemma main_parse_exit (w : world) (status : Z) (m : parser_message) :
  parse_args create_parser (argv w) = Stop (SystemExit status (Some m)) ->
  main w =
    ([match m with
      | VersionText _ | HelpText => WriteStdout (ParserOutput m)
      | _ => WriteStderr (ParserUsageError m)
      end],
     inr (Exit status)).
Proof.
  intros H. unfold main. cbv zeta. unfold io_bind at 1.
  unfold run_parse_args, io_bind, ask. rewrite H. destruct m; reflexivity.
Qed.

(** X12.  When the parser stops, [main] does nothing else: a usage error
    is written to the error stream and the process exits with status 2; the
    version or the help text is written to standard output and the process
    exits with status 0.  The environment is not read and no request is
    made. *)
Theorem main_parser_exit (w : world) (s : signal) :
  parse_args create_parser (argv w) = Stop s ->
  (exists m, s = SystemExit 2 (Some m) /\ usage_message m
             /\ main w = ([WriteStderr (ParserUsageError m)], inr (Exit 2)))
  \/ (s = version_exit
      /\ main w = ([WriteStdout (ParserOutput (VersionText "News Crawler 1.0"))],
                   inr (Exit 0)))
  \/ (s = help_exit
      /\ main w = ([WriteStdout (ParserOutput HelpText)], inr (Exit 0))).
Proof.
  intros H. pose proof (parse_args_cases (argv w)) as Hc. rewrite H in Hc.
  destruct Hc as [(m & -> & Hm)|[-> | ->]].
  - left. exists m. repeat split; [exact Hm|].
    rewrite (main_parse_exit w 2 m H). destruct m; try reflexivity; destruct Hm.
  - right. left. split; [reflexivity|]. exact (main_parse_exit w _ _ H).
  - right. right. split; [reflexivity|]. exact (main_parse_exit w _ _ H).
Qed.

Lemma main_parser_exit_witness :
  let w := sample_world ["-t"; "test"; "-c"; "10"] (Some "key") in
  let s := SystemExit 2
             (Some (ArgumentErrorMessage ["--article_count"; "-c"]
                      (TypeErrorText (ValueGreater 11 "10")))) in
  (exists m, s = SystemExit 2 (Some m) /\ usage_message m
             /\ main w = ([WriteStderr (ParserUsageError m)], inr (Exit 2)))
  \/ (s = version_exit
      /\ main w = ([WriteStdout (ParserOutput (VersionText "News Crawler 1.0"))],
                   inr (Exit 0)))
  \/ (s = help_exit
      /\ main w = ([WriteStdout (ParserOutput HelpText)], inr (Exit 0))).
Proof.
  cbv zeta.
  apply (main_parser_exit (sample_world ["-t"; "test"; "-c"; "10"] (Some "key"))).
  reflexivity.
Defined.

Lemma join_items_strings (sep : string) (l : list string) :
  join_items sep (map VStr l) = Ok (String.concat sep l).
Proof.
  induction l as [|s [|s' l] IH]; [reflexivity|reflexivity|].
  change (map VStr (s :: s' :: l)) with (VStr s :: map VStr (s' :: l)).
  cbn [join_items]. change (VStr s' :: map VStr l) with (map VStr (s' :: l)).
  rewrite IH. reflexivity.
Qed.

Lemma fetch_with_key (w : world) (topics : list string) (c t : pyval) (key : string) :
  environ w !! "NEWS_KEY" = Some key ->
  let args := [("topic", VList (map VStr topics)); ("article_count", c); ("timeout", t)] in
  let r := news_request topics c key in
  fetch args w =
    ((LookupEnviron "NEWS_KEY" :: HttpGet r :: fst (after_reply (network w r)))%list,
     snd (after_reply (network w r))).
Proof.
  intros Hkey. cbv zeta. unfold fetch. unfold_io.
  change (getattr _ "topic") with (Some (VList (map VStr topics))).
  change (getattr _ "article_count") with (Some c).
  cbn [py_iter]. rewrite join_items_strings, Hkey. cbn [app fst snd].
  fold (news_request topics c key). unfold after_reply.
  destruct (network w (news_request topics c key)) as [|status json]; [reflexivity|].
  destruct ((400 <=? status) && (status <? 600)); [reflexivity|].
  destruct json; reflexivity.
Qed.

Lemma main_with_key (w : world) (topics : list string) (c t : pyval) (key : string) :
  let args := [("topic", VList (map VStr topics)); ("article_count", c); ("timeout", t)] in
  let r := news_request topics c key in
  parse_args create_parser (argv w) = Done args ->
  environ w !! "NEWS_KEY" = Some key ->
  main w = ((request_trace args r ++ fst (after_reply (network w r)))%list,
            snd (after_reply (network w r))).
Proof.
  cbv zeta. intros Hparse Hkey.
  rewrite (main_after_parse w _ Hparse), (after_parse_key_set w _ key Hkey).
  rewrite (fetch_with_key w topics c t key Hkey). reflexivity.
Qed.

Lemma error_status_test (status_code : Z) :
  (400 <=? status_code) && (status_code <? 600) = true <-> error_status status_code.
Proof. unfold error_status. rewrite andb_true_iff, Z.leb_le, Z.ltb_lt. reflexivity. Qed.

Lemma not_error_status_test (status_code : Z) :
  ~ error_status status_code -> (400 <=? status_code) && (status_code <? 600) = false.
Proof.
  intros H. destruct ((400 <=? status_code) && (status_code <? 600)) eqn:E; [|reflexivity].
  destruct (H (proj1 (error_status_test status_code) E)).
Qed.

(** X13.  The complete run: when the arguments parse, [NEWS_KEY] is set
    and the service answers with a status below 400 (or from 600) and a JSON
    body, [main] prints the arguments, looks the key up twice, sends one GET
    with the payload [q], [lang], [country], [max], [apikey], pretty-prints
    the decoded body and returns. *)
Theorem main_prints_result (w : world) (topics : list string) (c t : pyval)
    (key : string) (status_code : Z) (data : json_value) :
  let args := [("topic", VList (map VStr topics)); ("article_count", c); ("timeout", t)] in
  let r := news_request topics c key in
  parse_args create_parser (argv w) = Done args ->
  environ w !! "NEWS_KEY" = Some key ->
  network w r = Response status_code (Some data) ->
  ~ error_status status_code ->
  main w = ((request_trace args r ++ [WriteStdout (PrettyPrinted data)])%list, inl tt).
Proof.
  cbv zeta. intros Hparse Hkey Hnet Hstatus.
  rewrite (main_with_key w topics c t key Hparse Hkey), Hnet. unfold after_reply.
  rewrite (not_error_status_test status_code Hstatus). reflexivity.
Qed.

Lemma main_prints_result_witness :
  let w := sample_world ["-t"; "test"] (Some "key") in
  let args := parsed [VStr "test"] 10 10 in
  main w
  = ((request_trace args (news_request ["test"] (VInt 10) "key")
      ++ [WriteStdout (PrettyPrinted (JObject [("totalArticles", JNumber "0")]))])%list,
     inl tt).
Proof.
  cbv zeta.
  apply (main_prints_result (sample_world ["-t"; "test"] (Some "key")) ["test"]
           (VInt 10) (VInt 10) "key" 200);
    [reflexivity|reflexivity|reflexivity|unfold error_status; lia].
Defined.

(** X14.  When the request fails, [main] ends in a traceback after the
    request and prints nothing more: [RequestException] without a response,
    [HTTPError] for a status from 400 to 599 (whatever the body), and the
    JSON decoding error for a body that is not JSON. *)
Theorem main_request_fails (w : world) (topics : list string) (c t : pyval)
    (key : string) :
  let args := [("topic", VList (map VStr topics)); ("article_count", c); ("timeout", t)] in
  let r := news_request topics c key in
  parse_args create_parser (argv w) = Done args ->
  environ w !! "NEWS_KEY" = Some key ->
  (network w r = NoResponse ->
   main w = (request_trace args r, inr (Traceback RequestException)))
  /\ (forall status_code json,
         network w r = Response status_code json -> error_status status_code ->
         main w = (request_trace args r, inr (Traceback (HTTPError status_code))))
  /\ (forall status_code,
         network w r = Response status_code None -> ~ error_status status_code ->
         main w = (request_trace args r, inr (Traceback JSONDecodeError))).
Proof.
  cbv zeta. intros Hparse Hkey.
  rewrite (main_with_key w topics c t key Hparse Hkey). unfold after_reply.
  repeat split.
  - intros ->. cbn [fst snd]. rewrite app_nil_r. reflexivity.
  - intros status json -> Hs. rewrite (proj2 (error_status_test status) Hs).
    cbn [fst snd]. rewrite app_nil_r. reflexivity.
  - intros status -> Hs. rewrite (not_error_status_test status Hs).
    cbn [fst snd]. rewrite app_nil_r. reflexivity.
Qed.

Lemma main_request_fails_witness :
  let w := silent_world ["-t"; "test"] "key" in
  main w
  = (request_trace (parsed [VStr "test"] 10 10) (news_request ["test"] (VInt 10) "key"),
     inr (Traceback RequestException)).
Proof.
  cbv zeta.
  apply (main_request_fails (silent_world ["-t"; "test"] "key") ["test"]
           (VInt 10) (VInt 10) "key");
    reflexivity.
Defined.

Lemma fetch_never_exits (args : Namespace) (w : world) (status : Z) :
  snd (fetch args w) <> inr (Exit status).
Proof.
  pose proof (fetch_cases args w) as H.
  inversion H; discriminate.
Qed.

(** X15.  [main] exits with three statuses only: with 22, and then the
    arguments parsed and [NEWS_KEY] is not set; with 2, and then parsing
    ended in a usage error; with 0, and then the version or the help option
    stopped the parser. *)
Theorem main_exit_status (w : world) (status : Z) :
  snd (main w) = inr (Exit status) ->
  (status = 22
   /\ (exists args, parse_args create_parser (argv w) = Done args)
   /\ environ w !! "NEWS_KEY" = None)
  \/ (status = 2 /\ usage_error (parse_args create_parser (argv w)))
  \/ (status = 0
      /\ (parse_args create_parser (argv w) = Stop version_exit
          \/ parse_args create_parser (argv w) = Stop help_exit)).
Proof.
  destruct (parse_args create_parser (argv w)) as [args|s] eqn:Hparse.
  - rewrite (main_after_parse w args Hparse).
    destruct (environ w !! "NEWS_KEY") as [key|] eqn:Hkey.
    + rewrite (after_parse_key_set w args key Hkey). cbn [snd].
      intros H. destruct (fetch_never_exits args w status H).
    + rewrite (after_parse_key_missing w args Hkey). cbn [snd].
      intros [= <-]. left. eauto.
  - pose proof (parse_args_cases (argv w)) as Hc. rewrite Hparse in Hc.
    destruct Hc as [(m & -> & Hm)|[-> | ->]];
      rewrite (main_parse_exit w _ _ Hparse); cbn [snd]; intros [= <-].
    + right. left. split; [reflexivity|]. exists m. reflexivity.
    + right. right. split; [reflexivity|]. left. reflexivity.
    + right. right. split; [reflexivity|]. right. reflexivity.
Qed.

Lemma main_exit_status_witness :
  let w := sample_world ["-t"; "test"] None in
  (22 = 22
   /\ (exists args, parse_args create_parser (argv w) = Done args)
   /\ environ w !! "NEWS_KEY" = None)
  \/ (22 = 2 /\ usage_error (parse_args create_parser (argv w)))
  \/ (22 = 0
      /\ (parse_args create_parser (argv w) = Stop version_exit
          \/ parse_args create_parser (argv w) = Stop help_exit)).
Proof.
  cbv zeta. apply (main_exit_status (sample_world ["-t"; "test"] None) 22).
  reflexivity.
Defined.

(** X16.  On every run [main] sends at most one request. *)
Theorem main_at_most_one_request (w : world) :
  (length (requests_of (fst (main w))) <= 1)%nat.
Proof.
  destruct (parse_args create_parser (argv w)) as [args|s] eqn:Hparse.
  - rewrite (main_after_parse w args Hparse).
    destruct (environ w !! "NEWS_KEY") as [key|] eqn:Hkey.
    + rewrite (after_parse_key_set w args key Hkey). cbn [fst].
      pose proof (fetch_cases args w) as H. inversion H; cbn; lia.
    + rewrite (after_parse_key_missing w args Hkey). cbn. lia.
  - pose proof (parse_args_cases (argv w)) as Hc. rewrite Hparse in Hc.
    destruct Hc as [(m & -> & Hm)|[-> | ->]];
      rewrite (main_parse_exit w _ _ Hparse); [destruct m|..]; cbn; lia.
Qed.

Lemma join_items_ok (sep : string) (items : list pyval) (q : string) :
  join_items sep items = Ok q -> exists topics, items = map VStr topics.
Proof.
  revert q. induction items as [|v items IH]; intros q H.
  - exists []. reflexivity.
  - destruct v as [| |s|]; try (destruct items; discriminate H).
    destruct items as [|v' items]; [exists [s]; reflexivity|].
    change (join_items sep (VStr s :: v' :: items))
      with (let* r := join_items sep (v' :: items) in Ok (s ++ sep ++ r)%string) in H.
    destruct (join_items sep (v' :: items)) as [r|e]; [|discriminate H].
    destruct (IH r eq_refl) as (topics & Ht). exists (s :: topics).
    rewrite Ht. reflexivity.
Qed.

Lemma fetch_join_raises (w : world) (items : list pyval) (c t : pyval) (e : exception) :
  join_items " " items = Raise e ->
  fetch [("topic", VList items); ("article_count", c); ("timeout", t)] w
  = ([], inr (Traceback (PythonException e))).
Proof.
  intros H. unfold fetch. unfold_io.
  change (getattr _ "topic") with (Some (VList items)).
  cbn [py_iter]. rewrite H. reflexivity.
Qed.

Lemma after_reply_no_request (r : reply) (r' : request) :
  ~ In (HttpGet r') (fst (after_reply r)).
Proof.
  unfold after_reply. destruct r as [|status json]; [intros []|].
  destruct ((400 <=? status) && (status <? 600)); [intros []|].
  destruct json; [|intros []]. intros [H|[]]. discriminate H.
Qed.

(** X17.  Whatever the command line and the environment, a request that
    [main] sends is a GET to [BASE_URL] without time-out whose payload is
    [q] = the topics joined by single spaces, with at least one topic,
    [lang] = en, [country] = us, [max] = [str] of the article count, which
    is an integer from 1 to 10 (or the empty list that an explicit [--]
    leaves), and [apikey] = the value of [NEWS_KEY]. *)
Theorem main_request_shape (w : world) (r : request) :
  In (HttpGet r) (fst (main w)) ->
  exists topics article_count apikey,
    r = news_request topics article_count apikey
    /\ topics <> []
    /\ good_int 10 article_count
    /\ environ w !! "NEWS_KEY" = Some apikey.
Proof.
  intros Hin.
  destruct (parse_args create_parser (argv w)) as [args|s] eqn:Hparse.
  - pose proof (parse_args_cases (argv w)) as Hc. rewrite Hparse in Hc.
    destruct Hc as (items & c & t & -> & Hne & Hitems & Hc & Ht).
    rewrite (main_after_parse w _ Hparse) in Hin.
    destruct (environ w !! "NEWS_KEY") as [key|] eqn:Hkey.
    + rewrite (after_parse_key_set w _ key Hkey) in Hin.
      destruct (join_items " " items) as [q|e] eqn:Hjoin.
      * destruct (join_items_ok _ _ _ Hjoin) as (topics & ->).
        rewrite (fetch_with_key w topics c t key Hkey) in Hin. cbn [fst] in Hin.
        destruct Hin as [H|[H|[H|[H|H]]]]; try discriminate H.
        -- injection H as <-. exists topics, c, key. repeat split; try assumption.
           intros ->. apply Hne. reflexivity.
        -- destruct (after_reply_no_request _ _ H).
      * rewrite (fetch_join_raises w items c t e Hjoin) in Hin. cbn in Hin.
        destruct Hin as [H|[H|[]]]; discriminate H.
    + rewrite (after_parse_key_missing w _ Hkey) in Hin. cbn in Hin.
      destruct Hin as [H|[H|[H|[]]]]; discriminate H.
  - pose proof (parse_args_cases (argv w)) as Hc. rewrite Hparse in Hc.
    destruct Hc as [(m & -> & Hm)|[-> | ->]];
      rewrite (main_parse_exit w _ _ Hparse) in Hin; cbn [fst] in Hin;
      destruct Hin as [H|[]]; try discriminate H; destruct m; discriminate H.
Qed.

Lemma main_request_shape_witness :
  let w := sample_world ["-t"; "test"] (Some "key") in
  exists topics article_count apikey,
    news_request ["test"] (VInt 10) "key" = news_request topics article_count apikey
    /\ topics <> []
    /\ good_int 10 article_count
    /\ environ w !! "NEWS_KEY" = Some apikey.
Proof.
  cbv zeta.
  apply (main_request_shape (sample_world ["-t"; "test"] (Some "key"))).
  vm_compute. right. right. right. left. reflexivity.
Defined.

(** X18.  From the command line to the request: with options and values
    as above and [NEWS_KEY] set, [main] sends exactly one request; its [q]
    holds the topics in the order given, its [max] the last article count
    given (10 by default).  The time-out option has no effect on it. *)
Theorem main_request_of_command_line (w : world) (pairs : list (string * string))
    (key : string) :
  argv w = flatten pairs -> Forall well_formed pairs -> topics_of pairs <> [] ->
  environ w !! "NEWS_KEY" = Some key ->
  requests_of (fst (main w))
  = [HttpGet (news_request (topics_of pairs)
                (VInt (last_int is_count_flag pairs 10)) key)].
Proof.
  intros Hargv Hwf Hne Hkey.
  pose proof (parse_pairs pairs Hwf) as Hparse.
  rewrite (pairs_outcome_values pairs Hwf), <- Hargv in Hparse.
  destruct (topics_of pairs) as [|s topics]; [destruct (Hne eq_refl)|].
  rewrite (main_with_key w (s :: topics) (VInt _) (VInt _) key Hparse Hkey).
  cbn [fst]. unfold requests_of, request_trace. cbn [List.filter is_http_get app].
  unfold after_reply.
  destruct (network w _) as [|status json]; [reflexivity|].
  destruct ((400 <=? status) && (status <? 600)); [reflexivity|].
  destruct json; reflexivity.
Qed.

Lemma main_request_of_command_line_witness :
  let w := sample_world
             ["--timeout"; "20"; "-t"; "a"; "-c"; "3"; "--topic"; "b c";
              "--article_count"; "5"]
             (Some "key") in
  requests_of (fst (main w))
  = [HttpGet {| url := BASE_URL;
                params := [("q", "a b c"); ("lang", "en"); ("country", "us");
                           ("max", "5"); ("apikey", "key")];
                timeout := None |}].
Proof.
  cbv zeta.
  apply (main_request_of_command_line _ sample_pairs "key");
    [reflexivity|exact sample_pairs_well_formed|discriminate|reflexivity].
Defined.

(** X19.  The article count round trip: a count [n] from 1 to 9 written
    in decimal after [-c] or [--article_count] is what the request carries
    as [max], in the same decimal text. *)
Theorem main_sends_the_count_given (w : world) (topic flag key : string) (n : Z) :
  starts_with_dash topic = false ->
  flag = "-c" \/ flag = "--article_count" ->
  1 <= n <= 9 ->
  argv w = ["-t"; topic; flag; str_int n] ->
  environ w !! "NEWS_KEY" = Some key ->
  In (HttpGet {| url := BASE_URL;
                 params := [("q", topic); ("lang", "en"); ("country", "us");
                            ("max", str_int n); ("apikey", key)];
                 timeout := None |})
     (fst (main w)).
Proof.
  intros Htopic Hflag Hn Hargv Hkey.
  assert (Hint : py_int (str_int n) = Ok n)
    by (apply py_int_str_int, below_digit_limit; lia).
  assert (Hwf : Forall well_formed [("-t", topic); (flag, str_int n)]).
  { constructor; [left; split; [left; reflexivity|exact Htopic]|].
    constructor; [|constructor]. right. left. split; [exact Hflag|].
    exists n. split; [exact Hint|exact Hn]. }
  pose proof (parse_pairs _ Hwf) as Hparse.
  change (flatten [("-t", topic); (flag, str_int n)])
    with ["-t"; topic; flag; str_int n] in Hparse.
  rewrite <- Hargv in Hparse.
  assert (Hout : pairs_outcome [("-t", topic); (flag, str_int n)]
                 = Done (parsed [VStr topic] n 10)).
  { unfold pairs_outcome. cbn [fold_left]. unfold record_pair at 2.
    change (is_topic_flag "-t") with true. cbv iota.
    unfold record_pair.
    assert (is_topic_flag flag = false) as -> by (destruct Hflag as [-> | ->]; reflexivity).
    assert (is_count_flag flag = true) as -> by (destruct Hflag as [-> | ->]; reflexivity).
    unfold int_of. rewrite Hint. reflexivity. }
  rewrite Hout in Hparse.
  rewrite (main_with_key w [topic] (VInt n) (VInt 10) key Hparse Hkey).
  cbn [fst]. apply in_or_app. left. unfold request_trace.
  right. right. right. left. reflexivity.
Qed.

Lemma main_sends_the_count_given_witness :
  let w := sample_world ["-t"; "rocq"; "-c"; "7"] (Some "key") in
  In (HttpGet {| url := BASE_URL;
                 params := [("q", "rocq"); ("lang", "en"); ("country", "us");
                            ("max", "7"); ("apikey", "key")];
                 timeout := None |})
     (fst (main w)).
Proof.
  cbv zeta.
  apply (main_sends_the_count_given _ "rocq" "-c" "key" 7);
    [reflexivity|left; reflexivity|lia|reflexivity|reflexivity].
Defined.
